(** * Pulsar phase notebook: phase wrap, validity check, event-table
      augmentation and HDU index patching

    A shallow embedding of the code cells of the pulsar-phase notebook
    (the phase wrap, [check_time], the event-table augmentation, the output
    file names and the HDU-index patch loop).  float64 numbers are binary64
    values ([PrimFloat.float]); the phases, which the notebook holds as
    [np.longdouble], are values of a binary format given by its precision
    and exponent range ([spec_float]).  Tables, metadata and files are
    finite maps; string columns have a fixed width.  The objects the
    notebook shares by reference (astropy tables) live in an explicit
    store, and an observation of a data store reads its event file at
    every access. *)

From Stdlib Require Import ZArith Lia Floats Ascii.
From stdpp Require Import gmap strings list pretty.

Set Warnings "-inexact-float".

(* ===================================================================== *)
(** * Part I: definitions                                                 *)
(* ===================================================================== *)

(** ** binary64 comparisons and constants *)

(** Python's [a > b] on float64 is [b < a]; both are false on NaN. *)
Definition gtb (x y : float) : bool := PrimFloat.ltb y x.

(** The IEEE-754 views of the constants the proofs meet. *)
Definition SF_one : spec_float := S754_finite false 4503599627370496 (-52).
Definition SF_minus_one : spec_float := S754_finite true 4503599627370496 (-52).
Definition SF_half : spec_float := S754_finite false 4503599627370496 (-53).
Definition SF_minus_half : spec_float := S754_finite true 4503599627370496 (-53).

(** Number of low bits that rounding to binary64 drops from a mantissa of
    [d] digits at exponent [e]. *)
Definition shift_of (d e : Z) : Z := Z.max 0 (fexp prec emax (d + e) - e)%Z.

(** The same in a format of precision [prec] and exponent bound [emax]. *)
Definition fmt_shift_of (prec emax d e : Z) : Z :=
  Z.max 0 (fexp prec emax (d + e) - e)%Z.

(** ** The phase wrap

    [phases = np.where(phases < 0.0, phases + 1.0, phases)]

    The cell works on an array of any floating-point type: the phases that
    [model.phase] returns are [np.longdouble], and the same cell wraps a
    float64 array.  [Dtype] holds what the cell asks of the element type:
    the scalars 0.0 and 1.0 in that type, [<] and [+]. *)

Class Dtype (A : Type) : Type := mkDtype {
  dt_zero : A;
  dt_one : A;
  dt_less : A -> A -> bool;
  dt_add : A -> A -> A
}.

(** float64 *)
#[global] Instance float64 : Dtype float :=
  mkDtype float 0%float 1%float PrimFloat.ltb PrimFloat.add.

(** 1.0, 0.5 and their opposites in the binary format of precision [prec]. *)
Definition fmt_one (prec : Z) : spec_float :=
  S754_finite false (Z.to_pos (2 ^ (prec - 1))) (1 - prec).
Definition fmt_minus_one (prec : Z) : spec_float :=
  S754_finite true (Z.to_pos (2 ^ (prec - 1))) (1 - prec).
Definition fmt_half (prec : Z) : spec_float :=
  S754_finite false (Z.to_pos (2 ^ (prec - 1))) (- prec).
Definition fmt_minus_half (prec : Z) : spec_float :=
  S754_finite true (Z.to_pos (2 ^ (prec - 1))) (- prec).

(** A binary floating-point format with [prec] bits of precision and
    exponents below [emax], rounding to nearest, ties to even. *)
Definition binary_format (prec emax : Z) : Dtype spec_float :=
  mkDtype spec_float (S754_zero false) (fmt_one prec) SFltb (SFadd prec emax).

(** [np.longdouble]: the 80-bit extended format on x86, binary128 on
    aarch64 Linux. *)
Definition longdouble_x87 : Dtype spec_float := binary_format 64 16384.
Definition longdouble_binary128 : Dtype spec_float := binary_format 113 16384.

(** [phases < c]: elementwise comparison with a scalar. *)
Definition np_less {A : Type} {D : Dtype A} (xs : list A) (c : A) : list bool :=
  map (fun x => dt_less x c) xs.

(** [phases + c]: elementwise addition of a scalar. *)
Definition np_add {A : Type} {D : Dtype A} (xs : list A) (c : A) : list A :=
  map (fun x => dt_add x c) xs.

(** [np.where(cond, a, b)] on arrays of one shape. *)
Fixpoint np_where {A : Type} (cond : list bool) (a b : list A) : list A :=
  match cond, a, b with
  | c :: cond', x :: a', y :: b' => (if c then x else y) :: np_where cond' a' b'
  | _, _, _ => []
  end.

Definition shift_phases {A : Type} {D : Dtype A} (phases : list A) : list A :=
  np_where (np_less phases dt_zero) (np_add phases dt_one) phases.

(** What the wrap does to one phase value. *)
Definition wrap1 {A : Type} {D : Dtype A} (x : A) : A :=
  if dt_less x dt_zero then dt_add x dt_one else x.

(** Membership of the half-open interval [0, 1) and of the closed [0, 1]. *)
Definition in_unit (y : float) : bool :=
  PrimFloat.leb 0 y && PrimFloat.ltb y 1.

Definition in_unit_closed (y : float) : bool :=
  PrimFloat.leb 0 y && PrimFloat.leb y 1.

(** Membership of [-0.5, 0.5], the range the notebook expects from
    [model.phase]. *)
Definition in_half_range (x : float) : bool :=
  PrimFloat.leb (-0.5) x && PrimFloat.leb x 0.5.

(** The same three intervals in a binary format of precision [prec]. *)
Definition fmt_in_unit (prec : Z) (y : spec_float) : bool :=
  SFleb (S754_zero false) y && SFltb y (fmt_one prec).

Definition fmt_in_unit_closed (prec : Z) (y : spec_float) : bool :=
  SFleb (S754_zero false) y && SFleb y (fmt_one prec).

Definition fmt_in_half_range (prec : Z) (x : spec_float) : bool :=
  SFleb (fmt_minus_half prec) x && SFleb x (fmt_half prec).

(** ** Table cells, rows and tables *)

Inductive value : Type :=
  | VInt (z : Z)
  | VFloat (f : float)
  | VStr (s : string)                  (* a Python str *)
  | VFixed (width : nat) (s : string). (* a cell of a string column of the
                                          given width (dtype <Uw or Sw) *)

(** An integer converted to float64 (round to nearest even), as numpy does
    when a float64 cell is compared with a Python integer. *)
Definition Z2float (z : Z) : float := SF2Prim (binary_normalize prec emax z 0 false).

(** [a == b] on table cells: numbers compare by value, strings by content,
    a string never equals a number. *)
Definition py_eq (a b : value) : bool :=
  match a, b with
  | VInt x, VInt y => (x =? y)%Z
  | VFloat x, VFloat y => PrimFloat.eqb x y
  | VInt x, VFloat y => PrimFloat.eqb (Z2float x) y
  | VFloat x, VInt y => PrimFloat.eqb x (Z2float y)
  | VStr x, VStr y | VStr x, VFixed _ y
  | VFixed _ x, VStr y | VFixed _ x, VFixed _ y => String.eqb x y
  | _, _ => false
  end.

(** A table row: column name to cell. *)
Abbreviation Row := (gmap string value).

(** An astropy table: ordered column names, rows, and the [meta] mapping. *)
Record Table : Type := mkTable {
  colnames : list string;
  rows : list Row;
  meta : gmap string value
}.

(** ** The notebook's state *)

Abbreviation loc := positive.

Record TimingModel : Type := mkTimingModel {
  PSR : string;
  START : option float;    (* model.START.value, MJD; None when the par *)
  FINISH : option float;   (* model.FINISH.value       file has no entry *)
  TZRMJD : string;    (* the remaining entries enter the notebook only *)
  TZRSITE : string;   (* through str(...), and are kept as rendered    *)
  TZRFRQ : string;
  EPHEM : string;
  RAJ : string;
  DECJ : string
}.

Record state : Type := mkState {
  heap : gmap loc Table;        (* table objects, shared by reference *)
  files : gmap string Table;    (* written files, by path *)
  log : list string;            (* records of the module logger *)
  model : TimingModel           (* the module-level variable [model] *)
}.

Definition set_heap (h : gmap loc Table) (s : state) : state :=
  mkState h (files s) (log s) (model s).
Definition set_files (f : gmap string Table) (s : state) : state :=
  mkState (heap s) f (log s) (model s).
Definition set_log (l : list string) (s : state) : state :=
  mkState (heap s) (files s) l (model s).

Inductive exn : Type :=
  | KeyError (key : string)
  | ValueError (msg : string)
  | FileNotFoundError (path : string)
  | InvalidReference (l : loc).

(** A cell of the notebook either returns or raises, and in both cases
    leaves a state behind. *)
Inductive outcome (A : Type) : Type :=
  | Return (a : A) (s : state)
  | Raise (e : exn) (s : state).
Arguments Return {A} a s.
Arguments Raise {A} e s.

Definition M (A : Type) : Type := state -> outcome A.

Definition final_state {A} (o : outcome A) : state :=
  match o with Return _ s => s | Raise _ s => s end.

Definition raised {A} (o : outcome A) : option exn :=
  match o with Return _ _ => None | Raise e _ => Some e end.

#[global] Instance M_ret : MRet M := fun A a s => Return a s.
#[global] Instance M_bind : MBind M := fun A B f c s =>
  match c s with
  | Return a s' => f a s'
  | Raise e s' => Raise e s'
  end.

Definition raise {A} (e : exn) : M A := fun s => Raise e s.
Definition get_state : M state := fun s => Return s s.
Definition put_state (s' : state) : M unit := fun _ => Return tt s'.

Definition read_table (l : loc) : M Table := fun s =>
  match heap s !! l with
  | Some t => Return t s
  | None => Raise (InvalidReference l) s
  end.

Definition write_table (l : loc) (t : Table) : M unit := fun s =>
  Return tt (set_heap (<[l := t]> (heap s)) s).

(** ** Observations *)

(** An event list holds its table by reference ([EventList(table)] keeps
    the table it is given). *)
Record EventList : Type := mkEventList { table : loc }.

(** The attribute [events] of an observation is a
    [LazyFitsData(cache=False)]: an observation built from an event list
    holds that event list; an observation of a data store holds the
    location of its event file, which is read anew at every access. *)
Inductive LazyFitsData : Type :=
  | InMemory (value : EventList)
  | HDULocation (path : string).

Record Observation : Type := mkObservation {
  obs_id : Z;
  tstart_tt_mjd : float;   (* observation.tstart.tt.mjd *)
  tstop_tt_mjd : float;    (* observation.tstop.tt.mjd *)
  events : LazyFitsData
}.

(** [observation.events]: the event list held, or a new event list with a
    new table read from the event file. *)
Definition Observation_events (observation : Observation) : M EventList :=
  match events observation with
  | InMemory value => mret value
  | HDULocation path =>
    s ← get_state;
    match files s !! path with
    | Some t =>
      let l := fresh (dom (heap s)) in
      write_table l t;;
      mret (mkEventList l)
    | None => raise (FileNotFoundError path)
    end
  end.

(** The table object that [observation.events.table] gives in state [s],
    and what it holds. *)
Definition events_loc (observation : Observation) (s : state) : loc :=
  match events observation with
  | InMemory value => table value
  | HDULocation _ => fresh (dom (heap s))
  end.

Definition events_content (observation : Observation) (s : state) : option Table :=
  match events observation with
  | InMemory value => heap s !! table value
  | HDULocation path => files s !! path
  end.

(** [observation.copy(in_memory=True, events=new_event_list)] *)
Definition Observation_copy (observation : Observation) (new_events : EventList)
  : Observation :=
  mkObservation (obs_id observation) (tstart_tt_mjd observation)
                (tstop_tt_mjd observation) (InMemory new_events).

(** ** check_time *)

Definition warning_message (observation : Observation) : string :=
  "Warning: Observation time of observation " +:+ pretty (obs_id observation)
  +:+ " goes out of timing model validity time.".

Definition log_warning (msg : string) : M unit := fun s =>
  Return tt (set_log (log s ++ [msg]) s).

(** *** [Time([...], scale="tt", format="mjd")]

    astropy keeps a time as two float64 numbers [jd1 + jd2], split by
    [day_frac] into a whole number of days and a fraction. *)

(** [two_sum(a, b)]: the rounded sum and its rounding error. *)
Definition two_sum (a b : float) : float * float :=
  let x := (a + b)%float in
  let eb := (x - a)%float in
  let ea := (x - eb)%float in
  let eb := (b - eb)%float in
  let ea := (a - ea)%float in
  (x, (ea + eb)%float).

(** [np.round] on a float64: the nearest whole number, ties to even. *)
Definition np_round (x : float) : float :=
  let a := PrimFloat.abs x in
  let r := if PrimFloat.ltb a 0x1p52 then (a + 0x1p52 - 0x1p52)%float else a in
  if PrimFloat.ltb x 0 then (- r)%float else r.

(** [np.sign] *)
Definition np_sign (x : float) : float :=
  if PrimFloat.ltb x 0 then (-1)%float
  else if PrimFloat.ltb 0 x then 1%float
  else x.

(** [day_frac(val1, val2)] *)
Definition day_frac (val1 val2 : float) : float * float :=
  let '(sum12, err12) := two_sum val1 val2 in
  let day := np_round sum12 in
  let '(frac, check) := two_sum (sum12 - day)%float err12 in
  let excess :=
    if PrimFloat.eqb (frac * np_sign check)%float 0.5
    then np_round (frac + 2 * check)%float
    else np_round frac in
  let day := (day + excess)%float in
  let frac := (sum12 - day)%float in
  (day, (frac + err12)%float).

(** [erfa.DJM0]: the Julian date of MJD 0. *)
Definition DJM0 : float := 2400000.5%float.

(** [Time(v, format="mjd").value]: [set_jds] stores the two parts,
    [to_value] adds them up again. *)
Definition Time_mjd_value (v : float) : float :=
  let '(jd1, jd2) := day_frac v 0 in
  let '(jd1, jd2) := day_frac (jd1 + DJM0)%float jd2 in
  (jd1 - DJM0 + jd2)%float.

(** [np.isfinite] *)
Definition np_isfinite (x : float) : bool :=
  negb (PrimFloat.is_nan x) && negb (PrimFloat.is_infinity x).

(** [Time([a, b], scale="tt", format="mjd")], read back through [.value]:
    the input must hold finite numbers, [None] or a value that is not
    finite is refused. *)
Definition Time_mjd (a b : option float) : option (float * float) :=
  match a, b with
  | Some x, Some y =>
    if np_isfinite x && np_isfinite y
    then Some (Time_mjd_value x, Time_mjd_value y)
    else None
  | _, _ => None
  end.

Definition Time_mjd_error : exn :=
  ValueError "Input values did not match the format class mjd".

(** The observation starts before the window [model_time] opens, or stops
    after it closes. *)
Definition out_of_window (model_time : float * float) (observation : Observation)
  : bool :=
  PrimFloat.ltb (tstart_tt_mjd observation) (fst model_time)
  || PrimFloat.ltb (snd model_time) (tstop_tt_mjd observation).

(** [check_time(observation, timing_model)].  The body builds [model_time]
    from the module-level [model]; the parameter [timing_model] does not
    occur in it. *)
Definition check_time (observation : Observation) (timing_model : TimingModel)
  : M unit :=
  s ← get_state;
  match Time_mjd (START (model s)) (FINISH (model s)) with
  | None => raise Time_mjd_error
  | Some model_time =>
    if gtb (fst model_time) (tstart_tt_mjd observation)
       || PrimFloat.ltb (snd model_time) (tstop_tt_mjd observation)
    then log_warning (warning_message observation)
    else mret tt
  end.

(** ** Table operations *)

(** [table[name] = data], one cell per row.  A new name is appended to the
    column names; an existing column is replaced.  A table without columns
    takes its rows from the data.  Data of length one is broadcast over
    the rows of the table; only a new column on a table without rows
    refuses it. *)
Definition Table_set_column (name : string) (data : list value) (t : Table)
  : option Table :=
  let colnames' := if decide (name ∈ colnames t) then colnames t
                   else colnames t ++ [name] in
  if decide (colnames t = []) then
    Some (mkTable [name] ((fun v => {[ name := v ]}) <$> data) (meta t))
  else if decide (length data = length (rows t)) then
    Some (mkTable colnames'
                  (zip_with (fun r v => <[name := v]> r) (rows t) data)
                  (meta t))
  else
    match data with
    | [v] =>
      if decide (rows t = [] /\ name ∉ colnames t) then None
      else Some (mkTable colnames' ((fun r => <[name := v]> r) <$> rows t) (meta t))
    | _ => None
    end.

Definition Table_setitem (l : loc) (name : string) (data : list value) : M unit :=
  t ← read_table l;
  match Table_set_column name data t with
  | Some t' => write_table l t'
  | None => raise (ValueError "Inconsistent data column lengths")
  end.

(** [table.meta[key] = v] *)
Definition Table_set_meta (key : string) (v : value) (t : Table) : Table :=
  mkTable (colnames t) (rows t) (<[key := v]> (meta t)).

Definition meta_setitem (l : loc) (key : string) (v : value) : M unit :=
  t ← read_table l;
  write_table l (Table_set_meta key v t).

(** [table.copy()]: a new table object with the same content. *)
Definition Table_copy (l : loc) : M loc :=
  t ← read_table l;
  s ← get_state;
  let l' := fresh (dom (heap s)) in
  write_table l' t;;
  mret l'.

(** [table.write(path, overwrite=True)] *)
Definition Table_write (l : loc) (path : string) : M unit :=
  t ← read_table l;
  s ← get_state;
  put_state (set_files (<[path := t]> (files s)) s).

(** ** Adding the phases and the provenance record (section 3) *)

(** The cells from [table = observation.events.table] to
    [new_obs = observation.copy(in_memory=True, events=new_event_list)]. *)
Definition add_phase_column (observation : Observation) (phases : list float)
    (phase_log : string) : M Observation :=
  events ← Observation_events observation;
  let table := table events in
  Table_setitem table "PHASE" (VFloat <$> phases);;
  meta_setitem table "PH_LOG" (VStr phase_log);;
  let new_event_list := mkEventList table in
  mret (Observation_copy observation new_event_list).

(** The event table after the two assignments of section 3. *)
Definition with_phases (phases : list float) (phase_log : string) (t : Table)
  : Table :=
  mkTable (if decide ("PHASE" ∈ colnames t) then colnames t
           else colnames t ++ ["PHASE"])
          (zip_with (fun r v => <["PHASE" := v]> r) (rows t) (VFloat <$> phases))
          (<["PH_LOG" := VStr phase_log]> (meta t)).

(** ** Writing the patched HDU index (section 4) *)

Record DataStore : Type := mkDataStore { hdu_table : loc }.

(** What a cell holds after a string is assigned to it.  A string column
    has a fixed width: of a longer string the cell keeps the first [width]
    characters, and nothing is raised (astropy emits a
    StringTruncateWarning through [warnings], not through the logger).  Any
    other cell takes the string as it is. *)
Definition cell_assign (old : option value) (v : string) : value :=
  match old with
  | Some (VFixed width _) => VFixed width (String.substring 0 width v)
  | _ => VStr v
  end.



(** The row with [v] assigned to its cell in column [col]. *)
Definition assigned (col v : string) (entry : Row) : Row :=
  <[col := cell_assign (entry !! col) v]> entry.

(** [entry[col] = v] on a table row, for a string [v]: the column must
    exist. *)
Definition entry_setitem (col v : string) (entry : Row) : Row * option exn :=
  match entry !! col with
  | Some _ => (assigned col v entry, None)
  | None => (entry, Some (KeyError col))
  end.

(** The body of the loop, on one row: the row as the body leaves it, and
    the exception if one is raised. *)
Definition patch_entry (target : Z) (output_directory filename : string)
    (entry : Row) : Row * option exn :=
  match entry !! "HDU_NAME" with
  | None => (entry, Some (KeyError "HDU_NAME"))
  | Some hdu_name =>
    if py_eq hdu_name (VStr "EVENTS") then
      match entry !! "OBS_ID" with
      | None => (entry, Some (KeyError "OBS_ID"))
      | Some oid =>
        if py_eq oid (VInt target) then
          match entry_setitem "FILE_DIR" ("./" +:+ output_directory) entry with
          | (entry1, Some e) => (entry1, Some e)
          | (entry1, None) => entry_setitem "FILE_NAME" filename entry1
          end
        else (entry, None)
      end
    else (entry, None)
  end.

(** [for entry in table: body], rows in order; a raised exception stops
    the loop and leaves the rows already visited as the body left them. *)
Fixpoint for_entries (body : Row -> Row * option exn) (entries : list Row)
  : list Row * option exn :=
  match entries with
  | [] => ([], None)
  | entry :: rest =>
    match body entry with
    | (entry', Some e) => (entry' :: rest, Some e)
    | (entry', None) =>
      let (rest', err) := for_entries body rest in (entry' :: rest', err)
    end
  end.

Definition Table_for_entries (l : loc) (body : Row -> Row * option exn) : M unit :=
  t ← read_table l;
  let (rows', err) := for_entries body (rows t) in
  write_table l (mkTable (colnames t) rows' (meta t));;
  match err with
  | Some e => raise e
  | None => mret tt
  end.

(** The rows the loop is looking for. *)
Definition is_target (target : Z) (entry : Row) : bool :=
  match entry !! "HDU_NAME", entry !! "OBS_ID" with
  | Some hdu_name, Some oid => py_eq hdu_name (VStr "EVENTS") && py_eq oid (VInt target)
  | _, _ => false
  end.

(** The four columns the loop touches are present in every row. *)
Definition index_row_ok (entry : Row) : Prop :=
  is_Some (entry !! "HDU_NAME") ∧ is_Some (entry !! "OBS_ID") ∧
  is_Some (entry !! "FILE_DIR") ∧ is_Some (entry !! "FILE_NAME").

(** A row with the two assignments of the loop body applied. *)
Definition patched (output_directory filename : string) (entry : Row) : Row :=
  assigned "FILE_NAME" filename
    (assigned "FILE_DIR" ("./" +:+ output_directory) entry).

(** What the loop makes of one row that has the four columns. *)
Definition patch_row (target : Z) (output_directory filename : string)
    (entry : Row) : Row :=
  if is_target target entry then patched output_directory filename entry
  else entry.

(** A row the loop passes over: it has the two columns the test reads and
    is not a target. *)
Definition passed_over (target : Z) (entry : Row) : Prop :=
  is_Some (entry !! "HDU_NAME") /\ is_Some (entry !! "OBS_ID") /\
  is_target target entry = false.

Definition hdu_index_filename : string := "hdu-index-pulsar.fits.gz".

(** The cells from [new_hdu = data_store.hdu_table.copy()] to
    [new_hdu.write(datastore_dir + "hdu-index-pulsar.fits.gz", ...)]. *)
Definition patch_index (data_store : DataStore) (observation : Observation)
    (datastore_dir output_directory filename : string) : M loc :=
  new_hdu ← Table_copy (hdu_table data_store);
  Table_for_entries new_hdu
    (patch_entry (obs_id observation) output_directory filename);;
  Table_write new_hdu (datastore_dir +:+ hdu_index_filename);;
  mret new_hdu.

(** ** Sample data *)

(** Two states that differ only in the module-level model. *)
Definition crab_model (start finish : float) : TimingModel :=
  mkTimingModel "J0534+2200" (Some start) (Some finish) EmptyString EmptyString
                EmptyString EmptyString EmptyString EmptyString.

(** A par file that gives no START and no FINISH. *)
Definition par_without_window : TimingModel :=
  mkTimingModel "J0534+2200" None None EmptyString EmptyString EmptyString
                EmptyString EmptyString EmptyString.

(** The observation as the data store gives it, and the same observation
    with its event list held in memory. *)
Definition run_5029747 : Observation :=
  mkObservation 5029747 56569.18 56569.19 (HDULocation "data/run_05029747.fits").

Definition run_5029747_in_memory : Observation :=
  mkObservation 5029747 56569.18 56569.19 (InMemory (mkEventList 1)).

Definition state_with_model (m : TimingModel) : state :=
  mkState ∅ ∅ [] m.



(** An event table with three events, held at reference 1. *)
Definition events_row (event_id : Z) (time : float) : Row :=
  {[ "EVENT_ID" := VInt event_id; "TIME" := VFloat time ]}.

Definition events_table : Table :=
  mkTable ["EVENT_ID"; "TIME"]
          [events_row 1 333778852.4; events_row 2 333778852.5;
           events_row 5 333778853.1]
          {[ "OBS_ID" := VInt 5029747 ]}.

(** An HDU index with the event and GTI entries of two runs, held at
    reference 2. *)
Definition index_row (obs : Z) (hdu_type file_name hdu_name : string) : Row :=
  {[ "OBS_ID" := VInt obs; "HDU_TYPE" := VFixed 6 hdu_type;
     "HDU_CLASS" := VFixed 6 hdu_type; "FILE_DIR" := VFixed 1 ".";
     "FILE_NAME" := VFixed 17 file_name; "HDU_NAME" := VFixed 6 hdu_name ]}.

(** The same row in a table whose FILE_DIR and FILE_NAME columns are 100
    characters wide. *)
Definition wide_index_row (obs : Z) (hdu_type file_name hdu_name : string) : Row :=
  {[ "OBS_ID" := VInt obs; "HDU_TYPE" := VFixed 6 hdu_type;
     "HDU_CLASS" := VFixed 6 hdu_type; "FILE_DIR" := VFixed 100 ".";
     "FILE_NAME" := VFixed 100 file_name; "HDU_NAME" := VFixed 6 hdu_name ]}.

Definition wide_index_table : Table :=
  mkTable ["OBS_ID"; "HDU_TYPE"; "HDU_CLASS"; "FILE_DIR"; "FILE_NAME"; "HDU_NAME"]
          [wide_index_row 5029747 "events" "run_05029747.fits" "EVENTS";
           wide_index_row 5029747 "gti" "run_05029747.fits" "GTI";
           wide_index_row 5029748 "events" "run_05029748.fits" "EVENTS";
           wide_index_row 5029748 "gti" "run_05029748.fits" "GTI"]
          ∅.

Definition index_table : Table :=
  mkTable ["OBS_ID"; "HDU_TYPE"; "HDU_CLASS"; "FILE_DIR"; "FILE_NAME"; "HDU_NAME"]
          [index_row 5029747 "events" "run_05029747.fits" "EVENTS";
           index_row 5029747 "gti" "run_05029747.fits" "GTI";
           index_row 5029748 "events" "run_05029748.fits" "EVENTS";
           index_row 5029748 "gti" "run_05029748.fits" "GTI"]
          ∅.

Definition notebook_state : state :=
  mkState {[ 1%positive := events_table; 2%positive := index_table ]}
          {[ "data/hdu-index.fits.gz" := index_table;
             "data/run_05029747.fits" := events_table ]}
          []
          (crab_model 54686.15 56583.16).

(** ** The output file of an observation (section 4) *)

Fixpoint zeros (n : nat) : string :=
  match n with
  | O => EmptyString
  | S n' => String "0"%char (zeros n')
  end.

(** [f"{z:04d}"]: decimal, padded with zeros after the sign to a total
    width of at least four characters. *)
Definition format_04d (z : Z) : string :=
  let digits := pretty (Z.abs_N z) in
  let sign := if (z <? 0)%Z then "-" else EmptyString in
  sign +:+ zeros (4 - String.length sign - String.length digits) +:+ digits.

(** [filename = f"dl3_pulsar_{observation.obs_id:04d}.fits.gz"] *)
Definition events_filename (observation : Observation) : string :=
  "dl3_pulsar_" +:+ format_04d (obs_id observation) +:+ ".fits.gz".

Definition output_directory : string := "pulsar_events_file/".

(** [file_path = output_path + filename], with
    [output_path = datastore_dir + output_directory]. *)
Definition file_path (datastore_dir : string) (observation : Observation) : string :=
  (datastore_dir +:+ output_directory) +:+ events_filename observation.

(** Reading a decimal field back. *)
Definition digit_of (c : ascii) : N := (N_of_ascii c - 48)%N.

Fixpoint parse_N (acc : N) (s : string) : N :=
  match s with
  | EmptyString => acc
  | String c s' => parse_N (acc * 10 + digit_of c)%N s'
  end.

Definition parse_Z (s : string) : Z :=
  match s with
  | String c s' =>
    if Ascii.eqb c "-" then Z.opp (Z.of_N (parse_N 0 s'))
    else Z.of_N (parse_N 0 s)
  | EmptyString => 0%Z
  end.
(* ===================================================================== *)
(** * Part II: properties                                                 *)
(* ===================================================================== *)

(** ** binary64: digits, shifts and the rounding of a sum *)

Section Binary64.
Local Open Scope Z_scope.

Lemma digits2_size p : digits2_pos p = Pos.size p.
Proof. induction p; simpl; congruence. Qed.

Lemma size_bounds p : 2 ^ (Z.pos (Pos.size p) - 1) <= Z.pos p < 2 ^ Z.pos (Pos.size p).
Proof.
  split.
  - pose proof (Pos.size_le p) as H.
    apply Pos2Z.pos_le_pos in H. rewrite Pos2Z.inj_pow in H.
    replace (Z.pos (Pos.size p)) with (Z.succ (Z.pos (Pos.size p) - 1)) in H at 1 by lia.
    rewrite Z.pow_succ_r in H by lia. lia.
  - pose proof (Pos.size_gt p) as H.
    apply Pos2Z.pos_lt_pos in H. now rewrite Pos2Z.inj_pow in H.
Qed.

Lemma size_unique p d : 2 ^ (d - 1) <= Z.pos p < 2 ^ d -> Z.pos (Pos.size p) = d.
Proof.
  intros [Hl Hu]. pose proof (size_bounds p) as [Hl' Hu'].
  assert (0 < d).
  { destruct (Z_lt_le_dec 0 d) as [|Hd]; [assumption|].
    assert (2 ^ d <= 1).
    { destruct (Z.eq_dec d 0) as [->|]; [simpl; lia|rewrite Z.pow_neg_r by lia; lia]. }
    lia. }
  destruct (Z.lt_trichotomy (Z.pos (Pos.size p)) d) as [Hlt|[Heq|Hgt]]; [|assumption|].
  - assert (2 ^ Z.pos (Pos.size p) <= 2 ^ (d - 1)) by (apply Z.pow_le_mono_r; lia). lia.
  - assert (2 ^ d <= 2 ^ (Z.pos (Pos.size p) - 1)) by (apply Z.pow_le_mono_r; lia). lia.
Qed.

(* one right shift halves a non-negative mantissa *)
Lemma shr_1_m r : 0 <= shr_m r -> shr_m (shr_1 r) = shr_m r / 2 .
Proof.
  destruct r as [m rb sb]; cbn [shr_m]. intros Hm.
  destruct m as [|[p|p|]|p]; cbn [shr_1 shr_m]; try reflexivity; try lia.
  - apply Z.div_unique with (r := 1); lia.
  - apply Z.div_unique with (r := 0); lia.
Qed.

Lemma pow2_xO p : 2 ^ Z.pos p~0 = 2 ^ Z.pos p * 2 ^ Z.pos p.
Proof.
  replace (Z.pos p~0) with (Z.pos p + Z.pos p) by lia. apply Z.pow_add_r; lia.
Qed.

Lemma pow2_xI p : 2 ^ Z.pos p~1 = 2 * (2 ^ Z.pos p * 2 ^ Z.pos p).
Proof.
  replace (Z.pos p~1) with (1 + (Z.pos p + Z.pos p)) by lia.
  rewrite !Z.pow_add_r by lia. reflexivity.
Qed.

Lemma iter_shr_1_m p : forall r, 0 <= shr_m r ->
  shr_m (SpecFloat.iter_pos shr_1 p r) = shr_m r / 2 ^ Z.pos p.
Proof.
  assert (Hpow : forall q, 0 < 2 ^ Z.pos q) by (intros q; apply Z.pow_pos_nonneg; lia).
  induction p as [p IH|p IH|]; intros r Hr; cbn [SpecFloat.iter_pos].
  - assert (H1 : 0 <= shr_m (shr_1 r)) by (rewrite shr_1_m by lia; apply Z.div_pos; lia).
    assert (H2 : 0 <= shr_m (SpecFloat.iter_pos shr_1 p (shr_1 r))).
    { rewrite IH by lia. apply Z.div_pos; [lia|apply Hpow]. }
    rewrite IH, IH, shr_1_m by lia.
    pose proof (Hpow p).
    rewrite !Z.div_div by lia. now rewrite pow2_xI.
  - assert (H2 : 0 <= shr_m (SpecFloat.iter_pos shr_1 p r)).
    { rewrite IH by lia. apply Z.div_pos; [lia|apply Hpow]. }
    rewrite IH, IH by lia.
    pose proof (Hpow p).
    rewrite !Z.div_div by lia. now rewrite pow2_xO.
  - rewrite shr_1_m by lia. reflexivity.
Qed.

Lemma shr_m_spec r e n : 0 <= shr_m r ->
  shr_m (fst (shr r e n)) = shr_m r / 2 ^ Z.max 0 n /\ snd (shr r e n) = e + Z.max 0 n.
Proof.
  intros Hr. destruct n as [|p|p]; simpl.
  - rewrite Z.div_1_r. lia.
  - rewrite iter_shr_1_m by lia. split; reflexivity.
  - rewrite Z.div_1_r. lia.
Qed.

Lemma round_nearest_even_range m l :
  round_nearest_even m l = m \/ round_nearest_even m l = m + 1.
Proof.
  destruct l as [|[| |]]; simpl; auto. destruct (Z.even m); auto.
Qed.

Lemma shr_record_of_loc_m m l : shr_m (shr_record_of_loc m l) = m.
Proof. destruct l as [|[| |]]; reflexivity. Qed.



Lemma shr_fexp_spec m e l : 0 < m ->
  shr_m (fst (shr_fexp prec emax m e l)) = m / 2 ^ shift_of (Zdigits2 m) e /\
  snd (shr_fexp prec emax m e l) = e + shift_of (Zdigits2 m) e.
Proof.
  intros Hm. unfold shr_fexp, shift_of.
  pose proof (shr_m_spec (shr_record_of_loc m l) e
                (fexp prec emax (Zdigits2 m + e) - e)) as H.
  rewrite shr_record_of_loc_m in H. apply H. lia.
Qed.

Lemma Zdigits2_pos p : Zdigits2 (Z.pos p) = Z.pos (Pos.size p).
Proof. simpl. now rewrite digits2_size. Qed.

Lemma shift_of_small d e : emin <= e -> shift_of d e = Z.max 0 (d - prec).
Proof. unfold shift_of, fexp. intros He. change emin with (-1074) in *. change prec with 53 in *. lia. Qed.

Lemma div_pow2_pos p k : 0 <= k < Z.pos (Pos.size p) -> 0 < Z.pos p / 2 ^ k.
Proof.
  intros Hk. pose proof (size_bounds p) as [Hl _].
  assert (2 ^ k <= 2 ^ (Z.pos (Pos.size p) - 1)) by (apply Z.pow_le_mono_r; lia).
  apply Z.div_str_pos. split; [apply Z.pow_pos_nonneg; lia | lia].
Qed.

Lemma shr_fexp_pos p e l : emin <= e ->
  0 < shr_m (fst (shr_fexp prec emax (Z.pos p) e l)) /\
  emin <= snd (shr_fexp prec emax (Z.pos p) e l).
Proof.
  intros He. destruct (shr_fexp_spec (Z.pos p) e l) as [-> ->]; [lia|].
  rewrite Zdigits2_pos, shift_of_small by assumption.
  change emin with (-1074) in *. change prec with 53 in *.
  split; [|lia].
  apply div_pow2_pos. pose proof (Pos2Z.is_pos (Pos.size p)). lia.
Qed.

Lemma binary_round_aux_sign s p e : emin <= e ->
  (exists m' e', binary_round_aux prec emax s (Z.pos p) e loc_Exact = S754_finite s m' e') \/
  binary_round_aux prec emax s (Z.pos p) e loc_Exact = S754_infinity s.
Proof.
  intros He. unfold binary_round_aux.
  destruct (shr_fexp_pos p e loc_Exact He) as [Hm1 He1].
  destruct (shr_fexp prec emax (Z.pos p) e loc_Exact) as [r1 e1]; cbn [fst snd] in *.
  remember (round_nearest_even (shr_m r1) (loc_of_shr_record r1)) as m2 eqn:Em2.
  assert (Hm2 : 0 < m2).
  { destruct (round_nearest_even_range (shr_m r1) (loc_of_shr_record r1)) as [H|H];
      rewrite <- Em2 in H; lia. }
  clear Em2.
  destruct m2 as [|p2|p2]; try lia.
  destruct (shr_fexp_pos p2 e1 loc_Exact He1) as [Hm3 _].
  destruct (shr_fexp prec emax (Z.pos p2) e1 loc_Exact) as [r3 e3]; cbn [fst snd] in *.
  destruct (shr_m r3) as [|p3|p3]; try lia.
  destruct (e3 <=? emax - prec); eauto.
Qed.

Lemma shl_align_spec m e e' :
  Z.pos (fst (shl_align m e e')) = Z.pos m * 2 ^ Z.max 0 (e - e') /\
  snd (shl_align m e e') = Z.min e e'.
Proof.
  unfold shl_align. destruct (e' - e) as [|d|d] eqn:Hd; cbn [fst snd].
  - replace (Z.max 0 (e - e')) with 0 by lia. simpl. lia.
  - replace (Z.max 0 (e - e')) with 0 by lia. simpl. lia.
  - replace (Z.max 0 (e - e')) with (Z.pos d) by lia. split; [|lia].
    rewrite (Pos.iter_swap_gen _ _ Z.pos xO (fun z => 2 * z)) by reflexivity.
    clear. induction d using Pos.peano_ind.
    + simpl. lia.
    + rewrite Pos.iter_succ, IHd, Pos2Z.inj_succ, Z.pow_succ_r by lia. lia.
Qed.

Lemma binary_round_sign s p e : emin <= e ->
  (exists m' e', binary_round prec emax s p e = S754_finite s m' e') \/
  binary_round prec emax s p e = S754_infinity s.
Proof.
  intros He. unfold binary_round.
  destruct (shl_align_spec p e (fexp prec emax (Z.pos (digits2_pos p) + e))) as [_ Hz].
  destruct (shl_align p e (fexp prec emax (Z.pos (digits2_pos p) + e))) as [mz ez]; cbn [fst snd] in *.
  apply binary_round_aux_sign. subst ez. unfold fexp. change emin with (-1074) in *. lia.
Qed.



Lemma valid_finite s m e : valid_binary (S754_finite s m e) = true ->
  fexp prec emax (Z.pos (Pos.size m) + e) = e /\ e <= emax - prec.
Proof.
  cbn [SpecFloat.valid_binary]. unfold bounded, canonical_mantissa.
  rewrite digits2_size. intros H. apply andb_prop in H as [H1 H2].
  apply Z.eqb_eq in H1. apply Z.leb_le in H2. auto.
Qed.

Lemma valid_finite_bounds s m e : valid_binary (S754_finite s m e) = true ->
  emin <= e /\ Z.pos (Pos.size m) <= prec /\ (emin < e -> Z.pos (Pos.size m) = prec).
Proof.
  intros H. apply valid_finite in H as [H _]. unfold fexp in H.
  change emin with (-1074) in *. change prec with 53 in *. lia.
Qed.

Lemma pow2_52 : 2 ^ 52 = 4503599627370496.
Proof. reflexivity. Qed.

Lemma compare_cont_Eq m n : PosDef.Pos.compare_cont Eq m n = Pos.compare m n.
Proof. reflexivity. Qed.

Lemma SFadd_one_negative m e :
  valid_binary (S754_finite true m e) = true ->
  SFltb (S754_finite true m e) SF_minus_one = true ->
  SFltb (SF64add (S754_finite true m e) SF_one) (S754_zero false) = true.
Proof.
  intros Hv Hlt.
  destruct (valid_finite_bounds _ _ _ Hv) as (He & Hsz & Hnorm).
  change emin with (-1074) in He, Hnorm.
  change prec with 53 in Hsz, Hnorm.
  pose proof (size_bounds m) as [Hlo Hhi].
   assert (Hcase : -52 < e \/ (e = -52 /\ 2 ^ 52 < Z.pos m)).
  { unfold SFltb, SF_minus_one, SFcompare in Hlt.    destruct (Z.compare_spec e (-52)) as [->|Hc|Hc]; try discriminate; [right|left; lia].
    split; [reflexivity|].    rewrite compare_cont_Eq in Hlt.
    rewrite pow2_52.    destruct (Pos.compare_spec m 4503599627370496); try discriminate. lia. }
  unfold SF64add, SFadd, SF_one.
  replace (Z.min e (-52)) with (-52) by lia.
  destruct (shl_align_spec m e (-52)) as [-> _].
  destruct (shl_align_spec 4503599627370496 (-52) (-52)) as [-> _].
  cbn [cond_Zopp].
  replace (Z.max 0 (-52 - -52)) with 0 by reflexivity.
  rewrite Z.pow_0_r, Z.mul_1_r, <- pow2_52.
  assert (Hsum : - (Z.pos m * 2 ^ Z.max 0 (e - -52)) + 2 ^ 52 < 0).
  { destruct Hcase as [Hc|[-> Hc]].
    - rewrite Hnorm in Hlo by lia.
      replace (53 - 1) with 52 in Hlo by reflexivity.
      assert (2 ^ 1 <= 2 ^ Z.max 0 (e - -52)) by (apply Z.pow_le_mono_r; lia).
      rewrite Z.pow_1_r in *.
      assert (0 < 2 ^ 52) by (apply Z.pow_pos_nonneg; lia).
      nia.
    - replace (Z.max 0 (-52 - -52)) with 0 by reflexivity. rewrite Z.pow_0_r. lia. }
  destruct (- (Z.pos m * 2 ^ Z.max 0 (e - -52)) + 2 ^ 52)
    as [|k|k]; try lia.
  cbn [binary_normalize].
  destruct (binary_round_sign true k (-52)) as [(m' & e' & ->)| ->];
    [change emin with (-1074); lia|reflexivity|reflexivity].
Qed.

(* -0.5 <= x < 0 gives 0.5 <= x + 1 <= 1 *)
Lemma SFadd_one_unit m e :
  valid_binary (S754_finite true m e) = true ->
  SFleb SF_minus_half (S754_finite true m e) = true ->
  (exists m', SF64add (S754_finite true m e) SF_one = S754_finite false m' (-53)) \/
  SF64add (S754_finite true m e) SF_one = SF_one.
Proof.
  intros Hv Hle.
  destruct (valid_finite_bounds _ _ _ Hv) as (He & Hsz & Hnorm).
  change emin with (-1074) in He, Hnorm.
  change prec with 53 in Hsz, Hnorm.
  pose proof (size_bounds m) as [Hlo Hhi].
  assert (Hcase : e < -53 \/ (e = -53 /\ Z.pos m <= 2 ^ 52)).
  { unfold SFleb, SF_minus_half, SFcompare in Hle.
    destruct (-53 ?= e) eqn:Hc.
    - apply Z.compare_eq in Hc. right. split; [lia|].
      rewrite compare_cont_Eq in Hle. rewrite pow2_52.
      destruct (4503599627370496 ?= m)%positive eqn:Hm; cbn [CompOpp] in Hle.
      + apply Pos.compare_eq in Hm. rewrite <- Hm. apply Z.le_refl.
      + discriminate Hle.
      + apply Pos.compare_gt_iff, Pos2Z.pos_lt_pos in Hm. apply Z.lt_le_incl, Hm.
    - discriminate Hle.
    - apply Z.compare_gt_iff in Hc. left; lia. }
  assert (Hm : Z.pos m <= 2 ^ (- e - 1)).
  { destruct Hcase as [Hc|[-> Hc]]; [|exact Hc].
    assert (2 ^ Z.pos (Pos.size m) <= 2 ^ (- e - 1)) by (apply Z.pow_le_mono_r; lia). lia. }
  assert (Hp : 2 ^ (- e) = 2 * 2 ^ (- e - 1)).
  { rewrite <- Z.pow_succ_r by lia. f_equal. lia. }
  unfold SF64add, SFadd, SF_one.
  replace (Z.min e (-52)) with e by lia.
  destruct (shl_align_spec m e e) as [-> _].
  destruct (shl_align_spec 4503599627370496 (-52) e) as [-> _].
  cbn [cond_Zopp].
  replace (Z.max 0 (e - e)) with 0 by lia.
  assert (He53 : e <= -53) by (clear - Hcase; lia).
  replace (Z.max 0 (-52 - e)) with (-52 - e) by (clear - He53; lia).
  rewrite Z.pow_0_r, Z.mul_1_r, <- pow2_52, <- Z.pow_add_r by (clear - He53; lia).
  replace (52 + (-52 - e)) with (- e) by (clear; lia).
  assert (Hk : 2 ^ (- e - 1) <= - Z.pos m + 2 ^ (- e) < 2 ^ (- e)).
  { clear - Hm Hp. pose proof (Pos2Z.is_pos m). lia. }
  assert (Hpos : 0 < 2 ^ (- e - 1)) by (apply Z.pow_pos_nonneg; clear - He53; lia).
  destruct (- Z.pos m + 2 ^ (- e)) as [|k|k]; [clear - Hk Hpos; lia| |clear - Hk Hpos; lia].
  clear Hv Hle Hsz Hnorm Hlo Hhi Hcase Hm m.
  assert (Hsize : Z.pos (Pos.size k) = - e) by (apply size_unique; exact Hk).
  cbn [binary_normalize]. unfold binary_round.
  rewrite digits2_size, Hsize.
  replace (- e + e) with 0 by (clear; lia).
  change (fexp prec emax 0) with (-53).
  destruct (shl_align_spec k e (-53)) as [Hz1 Hz2].
  destruct (shl_align k e (-53)) as [mz ez]; cbn [fst snd] in Hz1, Hz2.
  replace (Z.max 0 (e - -53)) with 0 in Hz1 by (clear - He53; lia).
  rewrite Z.pow_0_r, Z.mul_1_r in Hz1. injection Hz1 as ->.
  replace (Z.min e (-53)) with e in Hz2 by (clear - He53; lia). subst ez.
  unfold binary_round_aux.
  destruct (shr_fexp_spec (Z.pos k) e loc_Exact) as [Hr1 He1]; [reflexivity|].
  destruct (shr_fexp prec emax (Z.pos k) e loc_Exact) as [r1 e1]; cbn [fst snd] in Hr1, He1.
  rewrite Zdigits2_pos, Hsize in Hr1, He1.
  assert (Hs : shift_of (- e) e = -53 - e).
  { unfold shift_of. replace (- e + e) with 0 by (clear; lia).
    change (fexp prec emax 0) with (-53). clear - He53; lia. }
  rewrite Hs in Hr1, He1.
  replace (e + (-53 - e)) with (-53) in He1 by (clear; lia). subst e1.
  assert (Hm1 : 2 ^ 52 <= shr_m r1 < 2 ^ 53).
  { rewrite Hr1.
    assert (Hn : 0 < 2 ^ (-53 - e)) by (apply Z.pow_pos_nonneg; clear - He53; lia).
    assert (H1 : 2 ^ (- e - 1) = 2 ^ 52 * 2 ^ (-53 - e)).
    { rewrite <- Z.pow_add_r by (clear - He53; lia). f_equal. clear; lia. }
    assert (H2 : 2 ^ (- e) = 2 ^ (-53 - e) * 2 ^ 53 ).
    { rewrite <- Z.pow_add_r by (clear - He53; lia). f_equal. clear; lia. }
    split.
    - apply Z.div_le_lower_bound; [exact Hn|]. rewrite Z.mul_comm, <- H1. apply Hk.
    - apply Z.div_lt_upper_bound; [exact Hn|]. rewrite <- H2. apply Hk. }
  clear Hr1.
  remember (round_nearest_even (shr_m r1) (loc_of_shr_record r1)) as m2 eqn:Em2.
  assert (Hm2 : 2 ^ 52 <= m2 < 2 ^ 53 \/ m2 = 2 ^ 53).
  { destruct (round_nearest_even_range (shr_m r1) (loc_of_shr_record r1)) as [H|H];
      rewrite <- Em2 in H; clear - H Hm1; lia. }
  clear Em2 Hm1 r1. destruct Hm2 as [Hm2| ->].
  - left. destruct m2 as [|p2|p2]; [exfalso| |exfalso].
    + clear - Hm2. rewrite pow2_52 in Hm2. lia.
    + assert (Hsz2 : Z.pos (Pos.size p2) = 53) by (apply size_unique; exact Hm2).
      destruct (shr_fexp_spec (Z.pos p2) (-53) loc_Exact) as [Hr3 He3]; [reflexivity|].
      destruct (shr_fexp prec emax (Z.pos p2) (-53) loc_Exact) as [r3 e3]; cbn [fst snd] in Hr3, He3.
      rewrite Zdigits2_pos, Hsz2 in Hr3, He3.
      change (shift_of 53 (-53)) with 0 in Hr3, He3.
      rewrite Z.pow_0_r, Z.div_1_r in Hr3. rewrite Hr3. subst e3.
      exists p2. reflexivity.
    + clear - Hm2. rewrite pow2_52 in Hm2. lia.
  - right. vm_compute. reflexivity.
Qed.

Lemma Prim2SF_one : Prim2SF 1 = SF_one.
Proof. reflexivity. Qed.
Lemma Prim2SF_zero : Prim2SF 0 = S754_zero false.
Proof. reflexivity. Qed.
Lemma Prim2SF_minus_one : Prim2SF (-1) = SF_minus_one.
Proof. reflexivity. Qed.
Lemma Prim2SF_half : Prim2SF 0.5 = SF_half.
Proof. reflexivity. Qed.
Lemma Prim2SF_minus_half : Prim2SF (-0.5) = SF_minus_half.
Proof. reflexivity. Qed.



End Binary64.

(** ** Any binary format: the rounding of x + 1.0 *)

Section Format.
Local Open Scope Z_scope.
Variables (prec emax : Z).
Hypothesis Hprec : 1 < prec.
Hypothesis Hemax : prec < emax.

Lemma fmt_shr_fexp_spec m e l : 0 < m ->
  shr_m (fst (shr_fexp prec emax m e l)) = m / 2 ^ fmt_shift_of prec emax (Zdigits2 m) e /\
  snd (shr_fexp prec emax m e l) = e + fmt_shift_of prec emax (Zdigits2 m) e.
Proof.
  intros Hm. unfold shr_fexp, fmt_shift_of.
  pose proof (shr_m_spec (shr_record_of_loc m l) e
                (fexp prec emax (Zdigits2 m + e) - e)) as H.
  rewrite shr_record_of_loc_m in H. apply H. lia.
Qed.

Lemma fmt_shift_of_small d e : SpecFloat.emin prec emax <= e ->
  fmt_shift_of prec emax d e = Z.max 0 (d - prec).
Proof. unfold fmt_shift_of, fexp, SpecFloat.emin. lia. Qed.

Lemma fmt_shr_fexp_pos p e l : SpecFloat.emin prec emax <= e ->
  0 < shr_m (fst (shr_fexp prec emax (Z.pos p) e l)) /\
  SpecFloat.emin prec emax <= snd (shr_fexp prec emax (Z.pos p) e l).
Proof.
  intros He. destruct (fmt_shr_fexp_spec (Z.pos p) e l) as [-> ->]; [lia|].
  rewrite Zdigits2_pos, fmt_shift_of_small by assumption.
  split; [|lia].
  apply div_pow2_pos. pose proof (Pos2Z.is_pos (Pos.size p)). lia.
Qed.

Lemma fmt_binary_round_aux_sign s p e : SpecFloat.emin prec emax <= e ->
  (exists m' e', binary_round_aux prec emax s (Z.pos p) e loc_Exact = S754_finite s m' e') \/
  binary_round_aux prec emax s (Z.pos p) e loc_Exact = S754_infinity s.
Proof.
  intros He. unfold binary_round_aux.
  destruct (fmt_shr_fexp_pos p e loc_Exact He) as [Hm1 He1].
  destruct (shr_fexp prec emax (Z.pos p) e loc_Exact) as [r1 e1]; cbn [fst snd] in *.
  remember (round_nearest_even (shr_m r1) (loc_of_shr_record r1)) as m2 eqn:Em2.
  assert (Hm2 : 0 < m2).
  { destruct (round_nearest_even_range (shr_m r1) (loc_of_shr_record r1)) as [H|H];
      rewrite <- Em2 in H; lia. }
  clear Em2.
  destruct m2 as [|p2|p2]; try lia.
  destruct (fmt_shr_fexp_pos p2 e1 loc_Exact He1) as [Hm3 _].
  destruct (shr_fexp prec emax (Z.pos p2) e1 loc_Exact) as [r3 e3]; cbn [fst snd] in *.
  destruct (shr_m r3) as [|p3|p3]; try lia.
  destruct (e3 <=? emax - prec); eauto.
Qed.

Lemma fmt_binary_round_sign s p e : SpecFloat.emin prec emax <= e ->
  (exists m' e', binary_round prec emax s p e = S754_finite s m' e') \/
  binary_round prec emax s p e = S754_infinity s.
Proof.
  intros He. unfold binary_round.
  destruct (shl_align_spec p e (fexp prec emax (Z.pos (digits2_pos p) + e))) as [_ Hz].
  destruct (shl_align p e (fexp prec emax (Z.pos (digits2_pos p) + e))) as [mz ez]; cbn [fst snd] in *.
  apply fmt_binary_round_aux_sign. subst ez. unfold fexp. unfold SpecFloat.emin in *. lia.
Qed.

Lemma fmt_valid_finite s m e : SpecFloat.valid_binary prec emax (S754_finite s m e) = true ->
  fexp prec emax (Z.pos (Pos.size m) + e) = e /\ e <= emax - prec.
Proof.
  cbn [SpecFloat.valid_binary]. unfold bounded, canonical_mantissa.
  rewrite digits2_size. intros H. apply andb_prop in H as [H1 H2].
  apply Z.eqb_eq in H1. apply Z.leb_le in H2. auto.
Qed.

Lemma fmt_valid_finite_bounds s m e :
  SpecFloat.valid_binary prec emax (S754_finite s m e) = true ->
  SpecFloat.emin prec emax <= e /\ Z.pos (Pos.size m) <= prec /\
  (SpecFloat.emin prec emax < e -> Z.pos (Pos.size m) = prec).
Proof.
  intros H. apply fmt_valid_finite in H as [H _]. unfold fexp in H.
  unfold SpecFloat.emin in *. lia.
Qed.

Lemma fmt_one_pos : Z.pos (Z.to_pos (2 ^ (prec - 1))) = 2 ^ (prec - 1).
Proof. apply Z2Pos.id. apply Z.pow_pos_nonneg; lia. Qed.


Lemma fmt_SFadd_one_negative m e :
  SpecFloat.valid_binary prec emax (S754_finite true m e) = true ->
  SFltb (S754_finite true m e) (fmt_minus_one prec) = true ->
  SFltb (SFadd prec emax (S754_finite true m e) (fmt_one prec)) (S754_zero false) = true.
Proof.
  intros Hv Hlt.
  destruct (fmt_valid_finite_bounds _ _ _ Hv) as (He & Hsz & Hnorm).
  unfold SpecFloat.emin in He, Hnorm.
  pose proof (size_bounds m) as [Hlo Hhi].
  pose proof fmt_one_pos as Hone.
  assert (Hcase : 1 - prec < e \/ (e = 1 - prec /\ 2 ^ (prec - 1) < Z.pos m)).
  { unfold SFltb, fmt_minus_one, SFcompare in Hlt.
    destruct (e ?= 1 - prec) eqn:Hc.
    - apply Z.compare_eq in Hc. right. split; [exact Hc|].
      rewrite compare_cont_Eq in Hlt. rewrite <- Hone.
      destruct (m ?= Z.to_pos (2 ^ (prec - 1)))%positive eqn:Hm; try discriminate Hlt.
      apply Pos.compare_gt_iff in Hm. apply Pos2Z.pos_lt_pos in Hm. exact Hm.
    - discriminate Hlt.
    - apply Z.compare_gt_iff in Hc. left. lia. }
  unfold SFadd, fmt_one.
  replace (Z.min e (1 - prec)) with (1 - prec) by lia.
  destruct (shl_align_spec m e (1 - prec)) as [-> _].
  destruct (shl_align_spec (Z.to_pos (2 ^ (prec - 1))) (1 - prec) (1 - prec)) as [-> _].
  cbn [cond_Zopp].
  replace (Z.max 0 (1 - prec - (1 - prec))) with 0 by lia.
  rewrite Z.pow_0_r, Z.mul_1_r, Hone.
  assert (Hsum : - (Z.pos m * 2 ^ Z.max 0 (e - (1 - prec))) + 2 ^ (prec - 1) < 0).
  { destruct Hcase as [Hc|[-> Hc]].
    - rewrite Hnorm in Hlo by lia.
      assert (2 ^ 1 <= 2 ^ Z.max 0 (e - (1 - prec))) by (apply Z.pow_le_mono_r; lia).
      rewrite Z.pow_1_r in *.
      assert (0 < 2 ^ (prec - 1)) by (apply Z.pow_pos_nonneg; lia).
      nia.
    - replace (Z.max 0 (1 - prec - (1 - prec))) with 0 by lia. rewrite Z.pow_0_r. lia. }
  destruct (- (Z.pos m * 2 ^ Z.max 0 (e - (1 - prec))) + 2 ^ (prec - 1))
    as [|k|k]; try lia.
  cbn [binary_normalize].
  destruct (fmt_binary_round_sign true k (1 - prec)) as [(m' & e' & ->)| ->];
    [unfold SpecFloat.emin; lia|reflexivity|reflexivity].
Qed.


Lemma fmt_leb_exp (a b : Z) : a <= b -> (a <=? b) = true.
Proof. apply Z.leb_le. Qed.

(* -0.5 <= x < 0 gives 0.5 <= x + 1 <= 1 *)
Lemma fmt_SFadd_one_unit m e :
  SpecFloat.valid_binary prec emax (S754_finite true m e) = true ->
  SFleb (fmt_minus_half prec) (S754_finite true m e) = true ->
  (exists m', SFadd prec emax (S754_finite true m e) (fmt_one prec)
              = S754_finite false m' (- prec)) \/
  SFadd prec emax (S754_finite true m e) (fmt_one prec) = fmt_one prec.
Proof.
  intros Hv Hle.
  destruct (fmt_valid_finite_bounds _ _ _ Hv) as (He & Hsz & Hnorm).
  unfold SpecFloat.emin in He, Hnorm.
  pose proof (size_bounds m) as [Hlo Hhi].
  pose proof fmt_one_pos as Hone.
  assert (Hcase : e < - prec \/ (e = - prec /\ Z.pos m <= 2 ^ (prec - 1))).
  { unfold SFleb, fmt_minus_half, SFcompare in Hle.
    destruct (- prec ?= e) eqn:Hc.
    - apply Z.compare_eq in Hc. right. split; [lia|].
      rewrite compare_cont_Eq in Hle. rewrite <- Hone.
      destruct (Z.to_pos (2 ^ (prec - 1)) ?= m)%positive eqn:Hm; cbn [CompOpp] in Hle.
      + apply Pos.compare_eq in Hm. rewrite <- Hm. apply Z.le_refl.
      + discriminate Hle.
      + apply Pos.compare_gt_iff, Pos2Z.pos_lt_pos in Hm. apply Z.lt_le_incl, Hm.
    - discriminate Hle.
    - apply Z.compare_gt_iff in Hc. left; lia. }
  assert (Hm : Z.pos m <= 2 ^ (- e - 1)).
  { destruct Hcase as [Hc|[-> Hc]].
    - assert (2 ^ Z.pos (Pos.size m) <= 2 ^ (- e - 1)) by (apply Z.pow_le_mono_r; lia). lia.
    - replace (- - prec - 1) with (prec - 1) by lia. exact Hc. }
  assert (Hp : 2 ^ (- e) = 2 * 2 ^ (- e - 1)).
  { rewrite <- Z.pow_succ_r by lia. f_equal. lia. }
  unfold SFadd, fmt_one.
  replace (Z.min e (1 - prec)) with e by lia.
  destruct (shl_align_spec m e e) as [-> _].
  destruct (shl_align_spec (Z.to_pos (2 ^ (prec - 1))) (1 - prec) e) as [-> _].
  cbn [cond_Zopp].
  replace (Z.max 0 (e - e)) with 0 by lia.
  assert (He53 : e <= - prec) by (clear - Hcase; lia).
  replace (Z.max 0 (1 - prec - e)) with (1 - prec - e) by (clear - He53; lia).
  rewrite Z.pow_0_r, Z.mul_1_r, Hone, <- Z.pow_add_r by (clear - He53 Hprec; lia).
  replace (prec - 1 + (1 - prec - e)) with (- e) by (clear; lia).
  assert (Hk : 2 ^ (- e - 1) <= - Z.pos m + 2 ^ (- e) < 2 ^ (- e)).
  { clear - Hm Hp. pose proof (Pos2Z.is_pos m). lia. }
  assert (Hpos : 0 < 2 ^ (- e - 1)) by (apply Z.pow_pos_nonneg; clear - He53 Hprec; lia).
  destruct (- Z.pos m + 2 ^ (- e)) as [|k|k]; [clear - Hk Hpos; lia| |clear - Hk Hpos; lia].
  clear Hv Hle Hsz Hnorm Hlo Hhi Hcase Hm m.
  assert (Hsize : Z.pos (Pos.size k) = - e) by (apply size_unique; exact Hk).
  assert (Hf0 : fexp prec emax 0 = - prec).
  { unfold fexp, SpecFloat.emin. clear - Hprec Hemax. lia. }
  cbn [binary_normalize]. unfold binary_round.
  rewrite digits2_size, Hsize.
  replace (- e + e) with 0 by (clear; lia).
  rewrite Hf0.
  destruct (shl_align_spec k e (- prec)) as [Hz1 Hz2].
  destruct (shl_align k e (- prec)) as [mz ez]; cbn [fst snd] in Hz1, Hz2.
  replace (Z.max 0 (e - - prec)) with 0 in Hz1 by (clear - He53; lia).
  rewrite Z.pow_0_r, Z.mul_1_r in Hz1. injection Hz1 as ->.
  replace (Z.min e (- prec)) with e in Hz2 by (clear - He53; lia). subst ez.
  unfold binary_round_aux.
  destruct (fmt_shr_fexp_spec (Z.pos k) e loc_Exact) as [Hr1 He1]; [reflexivity|].
  destruct (shr_fexp prec emax (Z.pos k) e loc_Exact) as [r1 e1]; cbn [fst snd] in Hr1, He1.
  rewrite Zdigits2_pos, Hsize in Hr1, He1.
  assert (Hs : fmt_shift_of prec emax (- e) e = - prec - e).
  { unfold fmt_shift_of. replace (- e + e) with 0 by (clear; lia).
    rewrite Hf0. clear - He53; lia. }
  rewrite Hs in Hr1, He1.
  replace (e + (- prec - e)) with (- prec) in He1 by (clear; lia). subst e1.
  assert (Hm1 : 2 ^ (prec - 1) <= shr_m r1 < 2 ^ prec).
  { rewrite Hr1.
    assert (Hn : 0 < 2 ^ (- prec - e)) by (apply Z.pow_pos_nonneg; clear - He53; lia).
    assert (H1 : 2 ^ (- e - 1) = 2 ^ (prec - 1) * 2 ^ (- prec - e)).
    { rewrite <- Z.pow_add_r by (clear - He53 Hprec; lia). f_equal. clear; lia. }
    assert (H2 : 2 ^ (- e) = 2 ^ (- prec - e) * 2 ^ prec).
    { rewrite <- Z.pow_add_r by (clear - He53 Hprec; lia). f_equal. clear; lia. }
    split.
    - apply Z.div_le_lower_bound; [exact Hn|]. rewrite Z.mul_comm, <- H1. apply Hk.
    - apply Z.div_lt_upper_bound; [exact Hn|]. rewrite <- H2. apply Hk. }
  clear Hr1.
  remember (round_nearest_even (shr_m r1) (loc_of_shr_record r1)) as m2 eqn:Em2.
  assert (Hm2 : 2 ^ (prec - 1) <= m2 < 2 ^ prec \/ m2 = 2 ^ prec).
  { destruct (round_nearest_even_range (shr_m r1) (loc_of_shr_record r1)) as [H|H];
      rewrite <- Em2 in H; clear - H Hm1; lia. }
  clear Em2 Hm1 r1.
  assert (Hpp : 0 < 2 ^ (prec - 1)) by (apply Z.pow_pos_nonneg; clear - Hprec; lia).
  assert (Hp2 : 2 ^ prec = 2 * 2 ^ (prec - 1)).
  { rewrite <- Z.pow_succ_r by (clear - Hprec; lia). f_equal. clear; lia. }
  destruct m2 as [|p2|p2]; [exfalso; clear - Hm2 Hpp Hp2; lia| |exfalso; clear - Hm2 Hpp Hp2; lia].
  destruct (fmt_shr_fexp_spec (Z.pos p2) (- prec) loc_Exact) as [Hr3 He3]; [reflexivity|].
  destruct (shr_fexp prec emax (Z.pos p2) (- prec) loc_Exact) as [r3 e3]; cbn [fst snd] in Hr3, He3.
  rewrite Zdigits2_pos in Hr3, He3.
  destruct Hm2 as [Hm2|Hm2].
  - left.
    assert (Hsz2 : Z.pos (Pos.size p2) = prec).
    { apply size_unique. exact Hm2. }
    rewrite Hsz2 in Hr3, He3.
    assert (Hs0 : fmt_shift_of prec emax prec (- prec) = 0).
    { unfold fmt_shift_of. replace (prec + - prec) with 0 by (clear; lia).
      rewrite Hf0. clear; lia. }
    rewrite Hs0 in Hr3, He3.
    rewrite Z.pow_0_r, Z.div_1_r in Hr3. rewrite Hr3.
    replace (- prec + 0) with (- prec) in He3 by (clear; lia). subst e3.
    rewrite fmt_leb_exp by (clear - Hemax Hprec; lia).
    exists p2. reflexivity.
  - right.
    assert (Hsz2 : Z.pos (Pos.size p2) = prec + 1).
    { apply size_unique. rewrite Hm2. replace (prec + 1 - 1) with prec by (clear; lia).
      split; [apply Z.le_refl|]. apply Z.pow_lt_mono_r; clear - Hprec; lia. }
    rewrite Hsz2 in Hr3, He3.
    assert (Hs1 : fmt_shift_of prec emax (prec + 1) (- prec) = 1).
    { unfold fmt_shift_of, fexp, SpecFloat.emin. clear - Hprec Hemax. lia. }
    rewrite Hs1 in Hr3, He3.
    rewrite Hm2, Z.pow_1_r, Hp2 in Hr3.
    replace (2 * 2 ^ (prec - 1)) with (2 ^ (prec - 1) * 2) in Hr3 by (clear; lia).
    rewrite Z.div_mul in Hr3 by (clear; lia).
    rewrite Hr3. subst e3.
    rewrite <- Hone.
    replace (- prec + 1) with (1 - prec) by (clear; lia).
    rewrite fmt_leb_exp by (clear - Hemax Hprec; lia).
    reflexivity.
Qed.


Lemma fmt_exp_below_one : (- prec ?= 1 - prec) = Lt.
Proof. apply Z.compare_lt_iff. lia. Qed.

Ltac sf_discriminate H :=
  unfold SFleb, SFltb, SFcompare, fmt_minus_half, fmt_minus_one, fmt_half,
    fmt_one in H;
  discriminate H.

(* x < -1.0 : x + 1.0 is still negative *)
Lemma fmt_add_one_negative (x : spec_float) :
  SpecFloat.valid_binary prec emax x = true ->
  SFltb x (fmt_minus_one prec) = true ->
  SFltb (SFadd prec emax x (fmt_one prec)) (S754_zero false) = true.
Proof.
  intros Hv. destruct x as [s|s| |s m e].
  - destruct s; intros H; sf_discriminate H.
  - destruct s; intros H; [reflexivity|sf_discriminate H].
  - intros H; sf_discriminate H.
  - destruct s; [|intros H; sf_discriminate H]. now apply fmt_SFadd_one_negative.
Qed.

(* -0.5 <= x < 0 : x + 1.0 lies in [0, 1] *)
Lemma fmt_add_one_unit (x : spec_float) :
  SpecFloat.valid_binary prec emax x = true ->
  SFleb (fmt_minus_half prec) x = true -> SFltb x (S754_zero false) = true ->
  fmt_in_unit_closed prec (SFadd prec emax x (fmt_one prec)) = true.
Proof.
  intros Hv. unfold fmt_in_unit_closed. destruct x as [s|s| |s m e].
  - destruct s; intros _ H; sf_discriminate H.
  - destruct s; [intros H; sf_discriminate H|intros _ H; sf_discriminate H].
  - intros H; sf_discriminate H.
  - destruct s; [|intros _ H; sf_discriminate H]. intros Hle _.
    destruct (fmt_SFadd_one_unit m e Hv Hle) as [[m' ->]| ->].
    + unfold SFleb, SFcompare, fmt_one. rewrite fmt_exp_below_one. reflexivity.
    + unfold SFleb, SFcompare, fmt_one.
      rewrite Z.compare_refl, compare_cont_Eq, Pos.compare_refl. reflexivity.
Qed.

(* 0 <= x <= 0.5 (not negative): already within [0, 1) *)
Lemma fmt_nonneg_half_unit (x : spec_float) :
  SFltb x (S754_zero false) = false -> SFleb x (fmt_half prec) = true ->
  fmt_in_unit prec x = true.
Proof.
  unfold fmt_in_unit. destruct x as [s|s| |s m e].
  - intros _ _. reflexivity.
  - destruct s; intros H1 H2; [sf_discriminate H1|sf_discriminate H2].
  - intros _ H; sf_discriminate H.
  - destruct s; [intros H; sf_discriminate H|]. intros _ Hle.
    unfold SFleb, SFltb, fmt_half, fmt_one, SFcompare in *. cbn [andb].
    destruct (e ?= - prec) eqn:He.
    + apply Z.compare_eq in He. subst e. rewrite fmt_exp_below_one. reflexivity.
    + assert (He' : (e ?= 1 - prec) = Lt).
      { assert (Hlt : e < - prec) by exact He.
        apply Z.compare_lt_iff. clear - Hlt. lia. }
      rewrite He'. reflexivity.
    + discriminate Hle.
Qed.

Lemma fmt_in_unit_closed_of_unit (y : spec_float) :
  fmt_in_unit prec y = true -> fmt_in_unit_closed prec y = true.
Proof.
  unfold fmt_in_unit, fmt_in_unit_closed. intros H.
  apply andb_prop in H as [-> H]. cbn [andb].
  unfold SFltb in H. unfold SFleb.
  destruct (SFcompare y (fmt_one prec)) as [[| |]|]; (reflexivity || sf_discriminate H).
Qed.

Lemma fmt_ltb_minus_one_negative (x : spec_float) :
  SFltb x (fmt_minus_one prec) = true -> SFltb x (S754_zero false) = true.
Proof.
  destruct x as [[|]|[|]| |[|] m e]; intros H; try sf_discriminate H; reflexivity.
Qed.

Lemma fmt_ltb_zero_not_leb (y : spec_float) :
  SFltb y (S754_zero false) = true -> SFleb (S754_zero false) y = false.
Proof.
  destruct y as [[|]|[|]| |[|] m e]; intros H; try sf_discriminate H; reflexivity.
Qed.

(** A phase in [-0.5, 0.5] is wrapped into the closed interval [0, 1]. *)
Lemma fmt_wrap1_closed_unit (x : spec_float) :
  SpecFloat.valid_binary prec emax x = true ->
  fmt_in_half_range prec x = true ->
  fmt_in_unit_closed prec (wrap1 (D := binary_format prec emax) x) = true.
Proof.
  intros Hv H. unfold fmt_in_half_range in H. apply andb_prop in H as [Hlo Hhi].
  unfold wrap1; cbn [dt_less dt_zero dt_add dt_one binary_format].
  destruct (SFltb x (S754_zero false)) eqn:Hneg.
  - exact (fmt_add_one_unit x Hv Hlo Hneg).
  - apply fmt_in_unit_closed_of_unit. exact (fmt_nonneg_half_unit x Hneg Hhi).
Qed.

(** A phase below -1.0 takes the x + 1.0 branch and stays negative. *)
Lemma fmt_wrap1_single_cycle (x : spec_float) :
  SpecFloat.valid_binary prec emax x = true ->
  SFltb x (fmt_minus_one prec) = true ->
  wrap1 (D := binary_format prec emax) x = SFadd prec emax x (fmt_one prec) /\
  SFltb (SFadd prec emax x (fmt_one prec)) (S754_zero false) = true /\
  fmt_in_unit prec (SFadd prec emax x (fmt_one prec)) = false.
Proof.
  intros Hv Hx. unfold wrap1; cbn [dt_less dt_zero dt_add dt_one binary_format].
  rewrite (fmt_ltb_minus_one_negative x Hx).
  pose proof (fmt_add_one_negative x Hv Hx) as Hneg.
  split; [reflexivity|]. split; [exact Hneg|].
  unfold fmt_in_unit. now rewrite (fmt_ltb_zero_not_leb _ Hneg).
Qed.

End Format.




(* x < -1.0 : x + 1.0 is still negative *)
Lemma add_one_negative (x : float) :
  PrimFloat.ltb x (-1) = true -> PrimFloat.ltb (x + 1) 0 = true.
Proof.
  rewrite !FloatAxioms.ltb_spec, FloatAxioms.add_spec, Prim2SF_one, Prim2SF_zero, Prim2SF_minus_one.
  pose proof (Prim2SF_valid x) as Hv.
  destruct (Prim2SF x) as [s|s| |s m e].
  - destruct s; discriminate.
  - destruct s; [reflexivity|discriminate].
  - discriminate.
  - destruct s; [|discriminate]. now apply SFadd_one_negative.
Qed.

(* -0.5 <= x < 0 : x + 1.0 lies in [0, 1] *)
Lemma add_one_unit (x : float) :
  PrimFloat.leb (-0.5) x = true -> PrimFloat.ltb x 0 = true ->
  PrimFloat.leb 0 (x + 1) = true /\ PrimFloat.leb (x + 1) 1 = true.
Proof.
  rewrite FloatAxioms.ltb_spec, !FloatAxioms.leb_spec, FloatAxioms.add_spec, Prim2SF_one, Prim2SF_zero, Prim2SF_minus_half.
  pose proof (Prim2SF_valid x) as Hv.
  destruct (Prim2SF x) as [s|s| |s m e].
  - destruct s; discriminate.
  - destruct s; discriminate.
  - discriminate.
  - destruct s; [|discriminate]. intros Hle _.
    destruct (SFadd_one_unit m e Hv Hle) as [[m' ->]| ->]; split; reflexivity.
Qed.

(* 0 <= x <= 0.5 (not negative): already within [0, 1) *)
Lemma nonneg_half_unit (x : float) :
  PrimFloat.ltb x 0 = false -> PrimFloat.leb x 0.5 = true ->
  PrimFloat.leb 0 x = true /\ PrimFloat.ltb x 1 = true.
Proof.
  rewrite !FloatAxioms.ltb_spec, !FloatAxioms.leb_spec, Prim2SF_one, Prim2SF_zero, Prim2SF_half.
  destruct (Prim2SF x) as [s|s| |s m e].
  - intros _ _. split; reflexivity.
  - destruct s; discriminate.
  - discriminate.
  - destruct s; [discriminate|]. intros _ Hle. split; [reflexivity|].
    unfold SFleb, SFltb, SF_half, SF_one, SFcompare in *.
    destruct (e ?= -53)%Z eqn:He.
    + apply Z.compare_eq in He. subst e. reflexivity.
    + assert (He' : (e ?= -52)%Z = Lt).
      { assert (Hlt : (e < -53)%Z) by exact He.
        change (e < -52)%Z. clear - Hlt. lia. }
      rewrite He'. reflexivity.
    + discriminate Hle.
Qed.

Lemma ltb_minus_one_negative (x : float) :
  PrimFloat.ltb x (-1) = true -> PrimFloat.ltb x 0 = true.
Proof.
  rewrite !FloatAxioms.ltb_spec, Prim2SF_zero, Prim2SF_minus_one.
  destruct (Prim2SF x) as [[|]|[|]| |[|] m e]; intros H;
    try discriminate H; reflexivity.
Qed.

Lemma ltb_zero_not_leb (y : float) :
  PrimFloat.ltb y 0 = true -> PrimFloat.leb 0 y = false.
Proof.
  rewrite FloatAxioms.ltb_spec, FloatAxioms.leb_spec, Prim2SF_zero.
  destruct (Prim2SF y) as [[|]|[|]| |[|] m e]; intros H;
    try discriminate H; reflexivity.
Qed.

(** ** The phase wrap *)

Lemma shift_phases_map {A : Type} {D : Dtype A} (phases : list A) :
  shift_phases phases = wrap1 <$> phases.
Proof.
  unfold shift_phases, np_less, np_add.
  induction phases as [|x phases IH]; [reflexivity|].
  cbn [map np_where fmap list_fmap]. unfold wrap1 at 1. f_equal. exact IH.
Qed.

Lemma shift_phases_length {A : Type} {D : Dtype A} (phases : list A) :
  length (shift_phases phases) = length phases.
Proof. rewrite shift_phases_map. apply length_fmap. Qed.

Lemma shift_phases_lookup {A : Type} {D : Dtype A} (phases : list A) (i : nat) :
  shift_phases phases !! i = wrap1 <$> (phases !! i).
Proof. rewrite shift_phases_map. apply list_lookup_fmap. Qed.

Lemma wrap1_float64 (x : float) :
  wrap1 x = if PrimFloat.ltb x 0 then PrimFloat.add x 1 else x.
Proof. reflexivity. Qed.

(** A phase in [-0.5, 0.5] is wrapped into the closed interval [0, 1]. *)
Lemma wrap1_closed_unit (x : float) :
  in_half_range x = true -> in_unit_closed (wrap1 x) = true.
Proof.
  unfold in_half_range, in_unit_closed, wrap1; cbn [dt_less dt_zero dt_add dt_one float64]. intros H.
  apply andb_prop in H as [Hlo Hhi].
  destruct (PrimFloat.ltb x 0) eqn:Hneg.
  - destruct (add_one_unit x Hlo Hneg) as [-> ->]. reflexivity.
  - destruct (nonneg_half_unit x Hneg Hhi) as [H0 H1]. rewrite H0. cbn [andb].
    rewrite FloatAxioms.leb_spec. rewrite FloatAxioms.ltb_spec in H1.
    unfold SFleb. unfold SFltb in H1.
    destruct (SFcompare (Prim2SF x) (Prim2SF 1)) as [[| |]|]; (reflexivity || discriminate).
Qed.

Lemma fmt_one_53 : fmt_one 53 = SF_one.
Proof. reflexivity. Qed.

(** float64 is the binary format of precision 53: the wrap of a float64
    array is the wrap in that format. *)
Lemma shift_phases_float64_format (phases : list float) :
  Prim2SF <$> shift_phases phases
  = shift_phases (D := binary_format 53 1024) (Prim2SF <$> phases).
Proof.
  rewrite !shift_phases_map, <- !list_fmap_compose.
  apply list_fmap_ext. intros i x _. cbn [compose].
  unfold wrap1; cbn [dt_less dt_zero dt_add dt_one float64 binary_format].
  rewrite FloatAxioms.ltb_spec, Prim2SF_zero, fmt_one_53, <- Prim2SF_one.
  destruct (SFltb (Prim2SF x) (S754_zero false)); [|reflexivity].
  apply FloatAxioms.add_spec.
Qed.

(** C1 (as stated, refuted): -2^-70 is a longdouble of [-0.5, 0.5], it is
    negative, and the wrap maps it to 1.0, which is not in [0, 1).  The
    same happens to -2^-120 where longdouble is binary128, and to -1e-17 in
    a float64 array. *)
Lemma phase_wrap_half_open_counterexample :
  (let x := S754_finite true 9223372036854775808 (-133) in
   SpecFloat.valid_binary 64 16384 x = true /\
   fmt_in_half_range 64 x = true /\ SFltb x (S754_zero false) = true /\
   shift_phases (D := longdouble_x87) [x] = [fmt_one 64] /\
   fmt_in_unit 64 (fmt_one 64) = false) /\
  (let x := S754_finite true 5192296858534827628530496329220096 (-232) in
   SpecFloat.valid_binary 113 16384 x = true /\
   fmt_in_half_range 113 x = true /\ SFltb x (S754_zero false) = true /\
   shift_phases (D := longdouble_binary128) [x] = [fmt_one 113] /\
   fmt_in_unit 113 (fmt_one 113) = false) /\
  (in_half_range (-1e-17) = true /\ PrimFloat.ltb (-1e-17) 0 = true /\
   shift_phases [(-1e-17)%float] = [1%float] /\ in_unit 1 = false).
Proof. repeat split; vm_compute; reflexivity. Qed.

(** C1 (amended): in every binary format with round to nearest, longdouble
    and float64 among them, the wrap gives one output per input, in order;
    an input x of [-0.5, 0.5] gives x + 1.0 when x < 0 and x otherwise, and
    the output lies in the closed interval [0, 1]. *)
Theorem phase_wrap_closed_unit :
  (forall (prec emax : Z) (phases : list spec_float),
     (1 < prec)%Z -> (prec < emax)%Z ->
     length (shift_phases (D := binary_format prec emax) phases) = length phases /\
     forall (i : nat) (x : spec_float),
       phases !! i = Some x ->
       SpecFloat.valid_binary prec emax x = true ->
       fmt_in_half_range prec x = true ->
       shift_phases (D := binary_format prec emax) phases !! i
         = Some (if SFltb x (S754_zero false)
                 then SFadd prec emax x (fmt_one prec) else x) /\
       fmt_in_unit_closed prec
         (if SFltb x (S754_zero false)
          then SFadd prec emax x (fmt_one prec) else x) = true) /\
  (forall phases : list float,
     length (shift_phases phases) = length phases /\
     forall (i : nat) (x : float),
       phases !! i = Some x -> in_half_range x = true ->
       shift_phases phases !! i
         = Some (if PrimFloat.ltb x 0 then PrimFloat.add x 1 else x) /\
       in_unit_closed (if PrimFloat.ltb x 0 then PrimFloat.add x 1 else x) = true).
Proof.
  split.
  - intros prec emax phases Hprec Hemax.
    split; [apply shift_phases_length|].
    intros i x Hi Hv Hx. rewrite shift_phases_lookup, Hi. split; [reflexivity|].
    exact (fmt_wrap1_closed_unit prec emax Hprec Hemax x Hv Hx).
  - intros phases. split; [apply shift_phases_length|].
    intros i x Hi Hx. rewrite shift_phases_lookup, Hi. split; [reflexivity|].
    exact (wrap1_closed_unit x Hx).
Qed.

Lemma phase_wrap_closed_unit_witness :
  let x := S754_finite true 11068046444225730970 (-65) in
  let y := S754_finite false 12912720851596686131 (-64) in
  shift_phases (D := longdouble_x87) [x; S754_zero false] !! 0%nat = Some y /\
  fmt_in_unit_closed 64 y = true /\
  shift_phases [(-0.3)%float; 0.1%float; 0.5%float] !! 0%nat = Some 0.7%float /\
  in_unit_closed 0.7 = true.
Proof.
  intros x y.
  destruct phase_wrap_closed_unit as [Hfmt Hf64].
  destruct (Hfmt 64%Z 16384%Z [x; S754_zero false]) as [_ Hx]; [lia|lia|].
  destruct (Hx 0%nat x) as [H1 H2];
    [reflexivity|vm_compute; reflexivity|vm_compute; reflexivity|].
  destruct (Hf64 [(-0.3)%float; 0.1%float; 0.5%float]) as [_ Hp].
  destruct (Hp 0%nat (-0.3)%float) as [H3 H4];
    [reflexivity|vm_compute; reflexivity|].
  split; [exact H1|]. split; [exact H2|]. split; [exact H3|exact H4].
Defined.

(** C5: the phases [-0.3, 0.1, 0.6] are wrapped to [0.7, 0.1, 0.6]. *)
Theorem phase_wrap_example :
  shift_phases [(-0.3)%float; 0.1%float; 0.6%float]
  = [0.7%float; 0.1%float; 0.6%float].
Proof. vm_compute. reflexivity. Qed.

(** C6: the wrap adds 1.0 once.  In every binary format with round to
    nearest, and so for longdouble and for float64, a phase x below -1.0
    comes out of the wrap as x + 1.0, which is still negative, hence
    outside [0, 1). *)
Theorem phase_wrap_single_cycle :
  (forall (prec emax : Z) (phases : list spec_float) (i : nat) (x : spec_float),
     (1 < prec)%Z -> (prec < emax)%Z ->
     phases !! i = Some x ->
     SpecFloat.valid_binary prec emax x = true ->
     SFltb x (fmt_minus_one prec) = true ->
     shift_phases (D := binary_format prec emax) phases !! i
       = Some (SFadd prec emax x (fmt_one prec)) /\
     SFltb (SFadd prec emax x (fmt_one prec)) (S754_zero false) = true /\
     fmt_in_unit prec (SFadd prec emax x (fmt_one prec)) = false) /\
  (forall (phases : list float) (i : nat) (x : float),
     phases !! i = Some x ->
     PrimFloat.ltb x (-1) = true ->
     shift_phases phases !! i = Some (PrimFloat.add x 1) /\
     PrimFloat.ltb (PrimFloat.add x 1) 0 = true /\
     in_unit (PrimFloat.add x 1) = false).
Proof.
  split.
  - intros prec emax phases i x Hprec Hemax Hi Hv Hx.
    destruct (fmt_wrap1_single_cycle prec emax Hprec Hemax x Hv Hx) as (H1 & H2 & H3).
    rewrite shift_phases_lookup, Hi. cbn [fmap option_fmap option_map].
    rewrite H1. auto.
  - intros phases i x Hi Hx.
    pose proof (add_one_negative x Hx) as Hneg.
    rewrite shift_phases_lookup, Hi. cbn [fmap option_fmap option_map].
    rewrite wrap1_float64, (ltb_minus_one_negative x Hx).
    split; [reflexivity|]. split; [exact Hneg|].
    unfold in_unit. now rewrite (ltb_zero_not_leb _ Hneg).
Qed.

Lemma phase_wrap_single_cycle_witness :
  let x := S754_finite true 10376293541461622784 (-62) in
  let y := S754_finite true 11529215046068469760 (-63) in
  shift_phases (D := longdouble_x87) [S754_zero false; x] !! 1%nat = Some y /\
  SFltb y (S754_zero false) = true /\ fmt_in_unit 64 y = false /\
  shift_phases [0.25%float; (-2.25)%float] !! 1%nat = Some (-1.25)%float /\
  PrimFloat.ltb (-1.25) 0 = true /\ in_unit (-1.25) = false.
Proof.
  intros x y.
  destruct phase_wrap_single_cycle as [Hfmt Hf64].
  destruct (Hfmt 64%Z 16384%Z [S754_zero false; x] 1%nat x) as (H1 & H2 & H3);
    [lia|lia|reflexivity|vm_compute; reflexivity|vm_compute; reflexivity|].
  destruct (Hf64 [0.25%float; (-2.25)%float] 1%nat (-2.25)%float) as (H4 & H5 & H6);
    [reflexivity|vm_compute; reflexivity|].
  split; [exact H1|]. split; [exact H2|]. split; [exact H3|].
  split; [exact H4|]. split; [exact H5|exact H6].
Defined.

(** ** check_time *)

Lemma check_time_run (observation : Observation) (timing_model : TimingModel)
    (s : state) :
  check_time observation timing_model s
  = match Time_mjd (START (model s)) (FINISH (model s)) with
    | None => Raise Time_mjd_error s
    | Some model_time =>
      Return tt (if out_of_window model_time observation
                 then set_log (log s ++ [warning_message observation]) s
                 else s)
    end.
Proof.
  unfold check_time, out_of_window, gtb, mbind, M_bind, get_state, mret, M_ret,
    log_warning, raise.
  destruct (Time_mjd (START (model s)) (FINISH (model s))) as [[t0 t1]|];
    [|reflexivity].
  cbn [fst snd].
  destruct (PrimFloat.ltb (tstart_tt_mjd observation) t0
            || PrimFloat.ltb t1 (tstop_tt_mjd observation));
    reflexivity.
Qed.

Lemma Time_mjd_Some (a b : option float) :
  is_Some (Time_mjd a b) <->
  exists x y : float, a = Some x /\ b = Some y /\
    np_isfinite x = true /\ np_isfinite y = true.
Proof.
  unfold Time_mjd. split.
  - destruct a as [x|], b as [y|]; try (intros [? H]; discriminate H).
    destruct (np_isfinite x) eqn:Hx, (np_isfinite y) eqn:Hy; cbn;
      try (intros [? H]; discriminate H).
    intros _. exists x, y. auto.
  - intros (x & y & -> & -> & -> & ->). cbn. eexists. reflexivity.
Qed.

(** C4, as the code has it: with a par file that gives no START or no
    FINISH, [check_time] raises the [ValueError] of [Time(...)] and logs
    nothing, against the claim that it never raises. *)
Lemma check_time_raises_counterexample :
  let s := state_with_model par_without_window in
  check_time run_5029747 (model s) s = Raise Time_mjd_error s /\
  forall (A : Type) (next : M A),
    (check_time run_5029747 (model s) ≫= fun _ => next) s
    = Raise Time_mjd_error s.
Proof.
  cbv zeta. split; [|intros A next; unfold mbind, M_bind];
    rewrite check_time_run; reflexivity.
Qed.

(** C4: [check_time] raises exactly when [Time(...)] refuses the window of
    the module-level model, that is when START or FINISH is missing or not
    finite; it then leaves the state as it is and what follows does not
    run.  Otherwise it returns; it appends one warning to the log exactly
    when the observation starts before the window opens or stops after it
    closes, touches nothing else, and whatever follows it runs in both
    cases. *)
Theorem check_time_warns_iff_out_of_window
    (observation : Observation) (timing_model : TimingModel) (s : state) :
  (is_Some (Time_mjd (START (model s)) (FINISH (model s))) <->
   exists x y : float, START (model s) = Some x /\ FINISH (model s) = Some y /\
     np_isfinite x = true /\ np_isfinite y = true) /\
  match Time_mjd (START (model s)) (FINISH (model s)) with
  | None =>
    check_time observation timing_model s = Raise Time_mjd_error s /\
    forall (A : Type) (next : M A),
      (check_time observation timing_model ≫= fun _ => next) s
      = Raise Time_mjd_error s
  | Some model_time =>
    exists s' : state,
      check_time observation timing_model s = Return tt s' /\
      heap s' = heap s /\ files s' = files s /\ model s' = model s /\
      log s' = log s ++ (if out_of_window model_time observation
                         then [warning_message observation] else []) /\
      (log s' <> log s <->
         PrimFloat.ltb (tstart_tt_mjd observation) (fst model_time) = true \/
         PrimFloat.ltb (snd model_time) (tstop_tt_mjd observation) = true) /\
      forall (A : Type) (next : M A),
        (check_time observation timing_model ≫= fun _ => next) s = next s'
  end.
Proof.
  split; [apply Time_mjd_Some|].
  destruct (Time_mjd (START (model s)) (FINISH (model s))) as [model_time|] eqn:HT.
  2:{ split; [|intros A next; unfold mbind, M_bind];
        rewrite check_time_run, HT; reflexivity. }
  eexists. split; [rewrite check_time_run, HT; reflexivity|].
  assert (Hiff : out_of_window model_time observation = true <->
            PrimFloat.ltb (tstart_tt_mjd observation) (fst model_time) = true \/
            PrimFloat.ltb (snd model_time) (tstop_tt_mjd observation) = true).
  { unfold out_of_window. rewrite orb_true_iff. reflexivity. }
  destruct (out_of_window model_time observation) eqn:Hout; cbn.
  - repeat split; try reflexivity.
    + intros _. apply Hiff. reflexivity.
    + intros _ Heq. apply (f_equal length) in Heq.
      rewrite length_app in Heq. cbn in Heq. lia.
    + intros A next. unfold mbind, M_bind. rewrite check_time_run, HT, Hout.
      reflexivity.
  - repeat split; try reflexivity.
    + now rewrite app_nil_r.
    + intros Hne. exfalso. apply Hne. reflexivity.
    + intros Hw. apply Hiff in Hw. discriminate Hw.
    + intros A next. unfold mbind, M_bind. rewrite check_time_run, HT, Hout.
      reflexivity.
Qed.

(** C9: the [timing_model] argument has no influence on [check_time]: any
    two arguments give the same outcome.  The window that counts is the one
    of the module-level [model]: with the same argument, two module-level
    models give different outcomes. *)
Theorem check_time_ignores_argument :
  (forall (observation : Observation) (tm1 tm2 : TimingModel) (s : state),
     check_time observation tm1 s = check_time observation tm2 s) /\
  (let tm := crab_model 54686.15 56583.16 in
   check_time run_5029747 tm (state_with_model (crab_model 54686.15 56583.16))
   <> check_time run_5029747 tm (state_with_model (crab_model 54686.15 55000.0))).
Proof.
  split.
  - intros observation tm1 tm2 s. rewrite !check_time_run. reflexivity.
  - cbv zeta. rewrite !check_time_run.
    vm_compute. intros H. discriminate H.
Qed.





(** ** The store *)

Ltac run_M :=
  unfold mbind, M_bind, mret, M_ret, read_table, write_table, get_state,
    put_state, raise.

Lemma read_table_Some (l : loc) (t : Table) (s : state) :
  heap s !! l = Some t -> read_table l s = Return t s.
Proof. intros H. unfold read_table. now rewrite H. Qed.

Lemma meta_setitem_run (l : loc) (key : string) (v : value) (t : Table) (s : state) :
  heap s !! l = Some t ->
  meta_setitem l key v s
  = Return tt (set_heap (<[l := Table_set_meta key v t]> (heap s)) s).
Proof. intros H. unfold meta_setitem. run_M. now rewrite H. Qed.

(** ** Metadata *)

(** C7: [table.meta[key] = value] is a plain map update and never raises.
    Two writes under distinct keys leave both entries in the metadata; two
    writes under one key leave the later value only; no other key changes. *)
Theorem meta_update_semantics
    (l : loc) (t : Table) (s : state) (k1 k2 : string) (v1 v2 : value) :
  heap s !! l = Some t ->
  exists t2 : Table,
    (meta_setitem l k1 v1 ≫= fun _ => meta_setitem l k2 v2) s
      = Return tt (set_heap (<[l := t2]> (heap s)) s) /\
    colnames t2 = colnames t /\ rows t2 = rows t /\
    meta t2 !! k2 = Some v2 /\
    (k1 <> k2 -> meta t2 !! k1 = Some v1) /\
    (k1 = k2 -> t2 = Table_set_meta k2 v2 t) /\
    (forall k, k <> k1 -> k <> k2 -> meta t2 !! k = meta t !! k).
Proof.
  intros Hl. exists (Table_set_meta k2 v2 (Table_set_meta k1 v1 t)).
  split.
  - unfold mbind, M_bind. rewrite (meta_setitem_run l k1 v1 t s Hl).
    rewrite (meta_setitem_run l k2 v2 (Table_set_meta k1 v1 t)).
    + unfold set_heap; cbn. now rewrite insert_insert_eq.
    + cbn. apply lookup_insert_eq.
  - cbn. repeat split.
    + apply lookup_insert_eq.
    + intros Hne. rewrite lookup_insert_ne by congruence. apply lookup_insert_eq.
    + intros ->. unfold Table_set_meta; cbn. now rewrite insert_insert_eq.
    + intros k Hk1 Hk2. now rewrite !lookup_insert_ne by congruence.
Qed.

Lemma meta_update_semantics_witness :
  exists t2 : Table,
    (meta_setitem 1 "PH_LOG" (VStr "first") ≫= fun _ =>
       meta_setitem 1 "PH_LOG2" (VStr "second")) notebook_state
      = Return tt (set_heap (<[1%positive := t2]> (heap notebook_state)) notebook_state) /\
    meta t2 !! "PH_LOG" = Some (VStr "first") /\
    meta t2 !! "PH_LOG2" = Some (VStr "second").
Proof.
  assert (Hl : heap notebook_state !! 1%positive = Some events_table)
    by (vm_compute; reflexivity).
  destruct (meta_update_semantics 1 events_table notebook_state
              "PH_LOG" "PH_LOG2" (VStr "first") (VStr "second") Hl)
    as (t2 & Hrun & _ & _ & H2 & H1 & _).
  exists t2. split; [exact Hrun|]. split; [|exact H2].
  apply H1. intros H. discriminate H.
Defined.

(** ** Adding the phase column *)

Lemma Table_setitem_run (l : loc) (name : string) (data : list value)
    (t t' : Table) (s : state) :
  heap s !! l = Some t -> Table_set_column name data t = Some t' ->
  Table_setitem l name data s = Return tt (set_heap (<[l := t']> (heap s)) s).
Proof. intros H H'. unfold Table_setitem. run_M. now rewrite H, H'. Qed.

Lemma Table_set_column_new (name : string) (data : list value) (t : Table) :
  colnames t <> [] -> length data = length (rows t) ->
  Table_set_column name data t
  = Some (mkTable (if decide (name ∈ colnames t) then colnames t
                   else colnames t ++ [name])
                  (zip_with (fun r v => <[name := v]> r) (rows t) data)
                  (meta t)).
Proof.
  intros Hc Hlen. unfold Table_set_column.
  destruct (decide (colnames t = [])); [contradiction|].
  destruct (decide (length data = length (rows t))); [reflexivity|contradiction].
Qed.

Lemma fresh_loc_unused (h : gmap loc Table) : h !! fresh (dom h) = None.
Proof. apply not_elem_of_dom. apply is_fresh. Qed.

Lemma Observation_events_run (observation : Observation) (t : Table) (s : state) :
  events_content observation s = Some t ->
  Observation_events observation s
  = Return (mkEventList (events_loc observation s))
      (match events observation with
       | InMemory _ => s
       | HDULocation _ => set_heap (<[events_loc observation s := t]> (heap s)) s
       end).
Proof.
  unfold events_content, Observation_events, events_loc.
  destruct (events observation) as [[l]|path]; intros H; [reflexivity|].
  run_M. rewrite H. reflexivity.
Qed.

Lemma add_phase_column_run (observation : Observation) (phases : list float)
    (phase_log : string) (t : Table) (s : state) :
  events_content observation s = Some t ->
  colnames t <> [] -> length phases = length (rows t) ->
  add_phase_column observation phases phase_log s
  = Return (Observation_copy observation (mkEventList (events_loc observation s)))
           (set_heap (<[events_loc observation s := with_phases phases phase_log t]>
                        (heap s)) s).
Proof.
  intros Hl Hc Hlen. unfold add_phase_column, mbind at 1, M_bind at 1.
  rewrite (Observation_events_run observation t s Hl).
  cbn [table]. unfold mbind, M_bind.
  assert (Hset := Table_set_column_new "PHASE" (VFloat <$> phases) t Hc
                    ltac:(now rewrite length_fmap)).
  unfold events_content in Hl. unfold events_loc.
  destruct (events observation) as [[l]|path] eqn:He; cbn [table] in Hl |- *.
  - rewrite (Table_setitem_run _ _ _ t _ s Hl Hset).
    erewrite meta_setitem_run by (cbn; apply lookup_insert_eq).
    unfold mret, M_ret, set_heap; cbn. rewrite insert_insert_eq. reflexivity.
  - erewrite (Table_setitem_run _ _ _ t _ _ _ Hset).
    erewrite meta_setitem_run by (cbn; apply lookup_insert_eq).
    unfold mret, M_ret, set_heap; cbn. rewrite !insert_insert_eq. reflexivity.
    Unshelve. cbn. apply lookup_insert_eq.
Qed.

(** For an observation that holds its event list in memory, the table that
    the input observation refers to is the one that gains the column and
    the key, and the new observation refers to that same table. *)
Lemma add_phase_column_in_memory (observation : Observation) (value : EventList)
    (phases : list float) (phase_log : string) (t : Table) (s : state) :
  events observation = InMemory value ->
  heap s !! table value = Some t ->
  colnames t <> [] -> length phases = length (rows t) ->
  exists (new_obs : Observation) (s' : state),
    add_phase_column observation phases phase_log s = Return new_obs s' /\
    events new_obs = InMemory value /\
    heap s' !! table value = Some (with_phases phases phase_log t) /\
    (forall l, l <> table value -> heap s' !! l = heap s !! l).
Proof.
  intros He Hl Hc Hlen.
  assert (Hcont : events_content observation s = Some t)
    by (unfold events_content; now rewrite He).
  rewrite (add_phase_column_run observation phases phase_log t s Hcont Hc Hlen).
  unfold events_loc. rewrite He. eexists _, _. split; [reflexivity|].
  destruct value as [l]. cbn. split; [reflexivity|].
  split; [apply lookup_insert_eq|].
  intros l' Hne. now rewrite lookup_insert_ne by congruence.
Qed.

(** C3: for an observation of a data store, the augmentation does not touch
    the event list of the input observation.  The phase column and the
    provenance key go into a table that did not exist before, held by the
    new observation only; every table that existed, every file, the log
    and the model are as they were; and the event table that the input
    observation gives afterwards is the one it gave before, without the
    new column and the new key. *)
Theorem add_phase_column_keeps_input
    (observation : Observation) (phases : list float) (phase_log path : string)
    (t : Table) (s : state) :
  events observation = HDULocation path ->
  files s !! path = Some t ->
  colnames t <> [] -> length phases = length (rows t) ->
  exists (new_obs : Observation) (new_table : loc) (s' : state),
    add_phase_column observation phases phase_log s = Return new_obs s' /\
    events new_obs = InMemory (mkEventList new_table) /\
    obs_id new_obs = obs_id observation /\
    heap s !! new_table = None /\
    heap s' !! new_table = Some (with_phases phases phase_log t) /\
    "PHASE" ∈ colnames (with_phases phases phase_log t) /\
    meta (with_phases phases phase_log t) !! "PH_LOG" = Some (VStr phase_log) /\
    (forall l, l <> new_table -> heap s' !! l = heap s !! l) /\
    files s' = files s /\ log s' = log s /\ model s' = model s /\
    events observation = HDULocation path /\
    events_content observation s' = Some t /\
    exists (input_table : loc) (s'' : state),
      Observation_events observation s' = Return (mkEventList input_table) s'' /\
      input_table <> new_table /\
      heap s'' !! input_table = Some t /\
      heap s'' !! new_table = Some (with_phases phases phase_log t).
Proof.
  intros He Hf Hc Hlen.
  assert (Hcont : events_content observation s = Some t)
    by (unfold events_content; now rewrite He).
  exists (Observation_copy observation (mkEventList (events_loc observation s))),
    (events_loc observation s),
    (set_heap (<[events_loc observation s := with_phases phases phase_log t]>
                 (heap s)) s).
  split; [exact (add_phase_column_run observation phases phase_log t s Hcont Hc Hlen)|].
  assert (Hloc : events_loc observation s = fresh (dom (heap s)))
    by (unfold events_loc; now rewrite He).
  set (s' := set_heap _ s).
  assert (Hcont' : events_content observation s' = Some t)
    by (unfold events_content; rewrite He; exact Hf).
  assert (Hnew : heap s' !! events_loc observation s
                 = Some (with_phases phases phase_log t))
    by (cbn; apply lookup_insert_eq).
  split; [reflexivity|]. split; [reflexivity|].
  split; [rewrite Hloc; apply fresh_loc_unused|].
  split; [exact Hnew|]. split.
  { cbn. destruct (decide ("PHASE" ∈ colnames t)); [assumption|].
    apply elem_of_app. right. apply list_elem_of_singleton. reflexivity. }
  split; [cbn; apply lookup_insert_eq|].
  split; [intros l Hne; cbn; now rewrite lookup_insert_ne by congruence|].
  split; [reflexivity|]. split; [reflexivity|]. split; [reflexivity|].
  split; [exact He|]. split; [exact Hcont'|].
  eexists _, _. split; [exact (Observation_events_run observation t s' Hcont')|].
  assert (Hne : events_loc observation s' <> events_loc observation s).
  { intros Heq. pose proof (fresh_loc_unused (heap s')) as Hfresh.
    unfold events_loc at 1 in Heq. rewrite He in Heq. rewrite Heq, Hnew in Hfresh.
    discriminate Hfresh. }
  split; [exact Hne|]. rewrite He. cbn [heap set_heap].
  split; [apply lookup_insert_eq|].
  rewrite lookup_insert_ne by exact Hne. exact Hnew.
Qed.

Lemma add_phase_column_keeps_input_witness :
  exists (new_obs : Observation) (new_table : loc) (s' : state),
    add_phase_column run_5029747 [0.7%float; 0.1%float; 0.6%float] "log"
      notebook_state = Return new_obs s' /\
    events new_obs = InMemory (mkEventList new_table) /\
    heap s' !! new_table
      = Some (with_phases [0.7%float; 0.1%float; 0.6%float] "log" events_table) /\
    files s' = files notebook_state /\
    events_content run_5029747 s' = Some events_table.
Proof.
  assert (Hf : files notebook_state !! "data/run_05029747.fits" = Some events_table)
    by (vm_compute; reflexivity).
  assert (Hc : colnames events_table <> []) by (intros H; discriminate H).
  assert (Hlen : length [0.7%float; 0.1%float; 0.6%float] = length (rows events_table))
    by reflexivity.
  destruct (add_phase_column_keeps_input run_5029747 _ "log" _ events_table
              notebook_state eq_refl Hf Hc Hlen)
    as (new_obs & new_table & s' & Hrun & Hev & _ & _ & Hh & _ & _ & _ & Hfiles
        & _ & _ & _ & Hcont & _).
  exists new_obs, new_table, s'. split; [exact Hrun|]. split; [exact Hev|].
  split; [exact Hh|]. split; [exact Hfiles|exact Hcont].
Defined.

(** ** The index patch loop *)

Lemma assigned_lookup (col v : string) (entry : Row) :
  assigned col v entry !! col = Some (cell_assign (entry !! col) v).
Proof. apply lookup_insert_eq. Qed.

Lemma assigned_lookup_ne (col col' v : string) (entry : Row) :
  col' <> col -> assigned col v entry !! col' = entry !! col'.
Proof. intros H. unfold assigned. now rewrite lookup_insert_ne by congruence. Qed.

Lemma cell_assign_twice (old : option value) (v : string) :
  cell_assign (Some (cell_assign old v)) v = cell_assign old v.
Proof. destruct old as [[]|]; reflexivity. Qed.



Lemma patch_entry_ok (target : Z) (output_directory filename : string)
    (entry : Row) :
  index_row_ok entry ->
  patch_entry target output_directory filename entry
  = (patch_row target output_directory filename entry, None).
Proof.
  intros ([hn Hhn] & [oid Hoid] & [fd Hfd] & [fn Hfn]).
  unfold patch_entry, patch_row, is_target, patched, entry_setitem.
  rewrite Hhn, Hoid. destruct (py_eq hn (VStr "EVENTS")); [|reflexivity].
  destruct (py_eq oid (VInt target)); [|reflexivity]. cbn [andb].
  rewrite Hfd. rewrite assigned_lookup_ne by (intros H; discriminate H).
  rewrite Hfn. reflexivity.
Qed.

Lemma for_entries_ok (target : Z) (output_directory filename : string)
    (entries : list Row) :
  Forall index_row_ok entries ->
  for_entries (patch_entry target output_directory filename) entries
  = (patch_row target output_directory filename <$> entries, None).
Proof.
  induction 1 as [|entry rest Hentry _ IH]; [reflexivity|].
  cbn [for_entries]. rewrite (patch_entry_ok _ _ _ _ Hentry), IH. reflexivity.
Qed.

Lemma Table_for_entries_ok (l : loc) (t : Table) (s : state) (target : Z)
    (output_directory filename : string) :
  heap s !! l = Some t -> Forall index_row_ok (rows t) ->
  Table_for_entries l (patch_entry target output_directory filename) s
  = Return tt
      (set_heap (<[l := mkTable (colnames t)
                          (patch_row target output_directory filename <$> rows t)
                          (meta t)]> (heap s)) s).
Proof.
  intros Hl Hok. unfold Table_for_entries. run_M.
  rewrite Hl, (for_entries_ok _ _ _ _ Hok). reflexivity.
Qed.

Lemma patched_other_column (output_directory filename col : string) (entry : Row) :
  col <> "FILE_DIR" -> col <> "FILE_NAME" ->
  patched output_directory filename entry !! col = entry !! col.
Proof.
  intros H1 H2. unfold patched. now rewrite !assigned_lookup_ne by congruence.
Qed.

Lemma is_target_patched (target : Z) (output_directory filename : string)
    (entry : Row) :
  is_target target (patched output_directory filename entry)
  = is_target target entry.
Proof.
  unfold is_target. now rewrite !patched_other_column by discriminate.
Qed.

Lemma patched_FILE_DIR (output_directory filename : string) (entry : Row) :
  patched output_directory filename entry !! "FILE_DIR"
  = Some (cell_assign (entry !! "FILE_DIR") ("./" +:+ output_directory)).
Proof.
  unfold patched. rewrite assigned_lookup_ne by discriminate. apply assigned_lookup.
Qed.

Lemma patched_FILE_NAME (output_directory filename : string) (entry : Row) :
  patched output_directory filename entry !! "FILE_NAME"
  = Some (cell_assign (entry !! "FILE_NAME") filename).
Proof.
  unfold patched. rewrite assigned_lookup.
  now rewrite assigned_lookup_ne by discriminate.
Qed.



(** ** Copying, patching and writing the index *)

Lemma Table_copy_run (l : loc) (t : Table) (s : state) :
  heap s !! l = Some t ->
  Table_copy l s
  = Return (fresh (dom (heap s)))
           (set_heap (<[fresh (dom (heap s)) := t]> (heap s)) s).
Proof. intros Hl. unfold Table_copy. run_M. now rewrite Hl. Qed.

Lemma Table_write_run (l : loc) (path : string) (t : Table) (s : state) :
  heap s !! l = Some t ->
  Table_write l path s = Return tt (set_files (<[path := t]> (files s)) s).
Proof. intros Hl. unfold Table_write. run_M. now rewrite Hl. Qed.

(** The loop never touches a table other than the one it iterates. *)
Lemma Table_for_entries_frame (l l' : loc) (body : Row -> Row * option exn)
    (s : state) :
  l' <> l ->
  heap (final_state (Table_for_entries l body s)) !! l' = heap s !! l' /\
  files (final_state (Table_for_entries l body s)) = files s.
Proof.
  intros Hne. unfold Table_for_entries. run_M.
  destruct (heap s !! l) as [t|]; [|split; reflexivity].
  destruct (for_entries body (rows t)) as [rows' [e|]]; cbn;
    (split; [now rewrite lookup_insert_ne by congruence|reflexivity]).
Qed.

Lemma patch_index_run (data_store : DataStore) (observation : Observation)
    (datastore_dir output_directory filename : string) (t : Table) (s : state) :
  heap s !! hdu_table data_store = Some t ->
  Forall index_row_ok (rows t) ->
  let new_hdu := fresh (dom (heap s)) in
  let t' := mkTable (colnames t)
              (patch_row (obs_id observation) output_directory filename <$> rows t)
              (meta t) in
  patch_index data_store observation datastore_dir output_directory filename s
  = Return new_hdu
      (mkState (<[new_hdu := t']> (heap s))
               (<[datastore_dir +:+ hdu_index_filename := t']> (files s))
               (log s) (model s)).
Proof.
  intros Hl Hok new_hdu t'. unfold patch_index, mbind, M_bind.
  rewrite (Table_copy_run _ t s Hl). fold new_hdu.
  erewrite Table_for_entries_ok; [|cbn; apply lookup_insert_eq|exact Hok].
  erewrite Table_write_run by (cbn; apply lookup_insert_eq).
  unfold mret, M_ret, set_files, set_heap; cbn.
  rewrite insert_insert_eq. reflexivity.
Qed.

(** C8: the patch works on a copy.  Whatever the outcome of the three
    cells, the table of the data store is afterwards what it was before,
    and so is every file except the one written.  On an index whose rows
    have the four columns the cells return, the new table is a different
    object, and it is what is written under the new file name. *)
Theorem patch_index_keeps_original
    (data_store : DataStore) (observation : Observation)
    (datastore_dir output_directory filename : string) (t : Table) (s : state) :
  heap s !! hdu_table data_store = Some t ->
  let out := patch_index data_store observation datastore_dir output_directory
               filename s in
  heap (final_state out) !! hdu_table data_store = Some t /\
  (forall path, path <> datastore_dir +:+ hdu_index_filename ->
                files (final_state out) !! path = files s !! path) /\
  (Forall index_row_ok (rows t) ->
   exists (new_hdu : loc) (t' : Table) (s' : state),
     out = Return new_hdu s' /\
     new_hdu <> hdu_table data_store /\
     heap s' !! new_hdu = Some t' /\
     files s' !! (datastore_dir +:+ hdu_index_filename) = Some t' /\
     rows t' = patch_row (obs_id observation) output_directory filename <$> rows t).
Proof.
  intros Hl out.
  assert (Hfresh : fresh (dom (heap s)) <> hdu_table data_store).
  { intros Heq. pose proof (fresh_loc_unused (heap s)) as Hf.
    rewrite Heq, Hl in Hf. discriminate Hf. }
  assert (Hframe : heap (final_state out) !! hdu_table data_store = Some t /\
            forall path, path <> datastore_dir +:+ hdu_index_filename ->
                         files (final_state out) !! path = files s !! path).
  { subst out. unfold patch_index, mbind, M_bind.
    rewrite (Table_copy_run _ t s Hl).
    set (s1 := set_heap (<[fresh (dom (heap s)) := t]> (heap s)) s).
    destruct (Table_for_entries_frame (fresh (dom (heap s))) (hdu_table data_store)
                (patch_entry (obs_id observation) output_directory filename) s1)
      as [Hh Hf]; [congruence|].
    assert (Hs1 : heap s1 !! hdu_table data_store = Some t)
      by (cbn; now rewrite lookup_insert_ne by congruence).
    remember (Table_for_entries (fresh (dom (heap s)))
                (patch_entry (obs_id observation) output_directory filename) s1)
      as o eqn:Ho.
    clear Ho. rewrite Hs1 in Hh. destruct o as [[] s2|e s2]; cbn in Hh, Hf.
    - unfold Table_write. run_M.
      destruct (heap s2 !! fresh (dom (heap s))) as [t2|]; cbn.
      + split; [exact Hh|]. intros path Hp.
        rewrite lookup_insert_ne by congruence. now rewrite Hf.
      + split; [exact Hh|]. intros path _. now rewrite Hf.
    - cbn. split; [exact Hh|]. intros path _. now rewrite Hf. }
  split; [apply Hframe|]. split; [apply Hframe|].
  intros Hok. eexists _, _, _.
  split; [exact (patch_index_run data_store observation datastore_dir
                   output_directory filename t s Hl Hok)|].
  cbn. split; [exact Hfresh|]. split; [apply lookup_insert_eq|].
  split; [apply lookup_insert_eq|reflexivity].
Qed.

Lemma patch_index_keeps_original_witness :
  let out := patch_index (mkDataStore 2) run_5029747 "data/" "pulsar_events_file/"
               "dl3_pulsar_5029747.fits.gz" notebook_state in
  heap (final_state out) !! 2%positive = Some index_table /\
  files (final_state out) !! "data/hdu-index.fits.gz" = Some index_table /\
  raised out = None.
Proof.
  cbv zeta.
  assert (Hl : heap notebook_state !! hdu_table (mkDataStore 2) = Some index_table)
    by (vm_compute; reflexivity).
  destruct (patch_index_keeps_original (mkDataStore 2) run_5029747 "data/"
              "pulsar_events_file/" "dl3_pulsar_5029747.fits.gz" index_table
              notebook_state Hl) as (Hheap & Hfiles & Hret).
  split; [exact Hheap|]. split.
  - rewrite (Hfiles "data/hdu-index.fits.gz") by (intros H; discriminate H).
    vm_compute. reflexivity.
  - destruct Hret as (new_hdu & t' & s' & Hrun & _).
    + repeat constructor; eexists; vm_compute; reflexivity.
    + rewrite Hrun. reflexivity.
Defined.

(* ===================================================================== *)
(** * Part III: further properties of the notebook's code                  *)
(* ===================================================================== *)

(** ** binary64: exact sums and the rounding threshold *)

Section Binary64_exact.
Local Open Scope Z_scope.

Lemma SFcompare_antisym f g : SFcompare g f = option_map CompOpp (SFcompare f g).
Proof.
  unfold SFcompare.
  destruct f as [s|s| |s m e], g as [s'|s'| |s' m' e']; cbn [option_map];
    try reflexivity; try (destruct s; reflexivity); try (destruct s'; reflexivity);
    try (destruct s, s'; reflexivity).
  rewrite !compare_cont_Eq.
  rewrite (Z.compare_antisym e e'), (Pos.compare_antisym m m').
  destruct s, s'; try reflexivity;
    destruct (e ?= e'); cbn [CompOpp]; try reflexivity;
    destruct (m ?= m')%positive; reflexivity.
Qed.

(** No bit is dropped: the mantissa already fits. *)
Lemma shr_fexp_exact m e :
  shift_of (Zdigits2 m) e = 0 ->
  shr_fexp prec emax m e loc_Exact = (Build_shr_record m false false, e).
Proof.
  unfold shift_of, shr_fexp. intros H.
  destruct (fexp prec emax (Zdigits2 m + e) - e) as [|n|n] eqn:Hn;
    [reflexivity| |reflexivity].
  exfalso. rewrite Z.max_r in H by (clear; lia). discriminate H.
Qed.

Lemma binary_round_aux_exact s p e :
  shift_of (Z.pos (Pos.size p)) e = 0 -> e <= emax - prec ->
  binary_round_aux prec emax s (Z.pos p) e loc_Exact = S754_finite s p e.
Proof.
  intros Hs He. unfold binary_round_aux.
  rewrite shr_fexp_exact by (now rewrite Zdigits2_pos).
  cbn [shr_m loc_of_shr_record round_nearest_even].
  rewrite shr_fexp_exact by (now rewrite Zdigits2_pos).
  cbn [shr_m]. apply Z.leb_le in He. now rewrite He.
Qed.

Lemma not_below_minus_one m e :
  SFltb (S754_finite true m e) SF_minus_one = false ->
  e < -52 \/ (e = -52 /\ Z.pos m <= 2 ^ 52).
Proof.
  unfold SFltb, SF_minus_one, SFcompare. intros H.
  destruct (e ?= -52) eqn:Hc.
  - apply Z.compare_eq in Hc. right. split; [exact Hc|].
    rewrite compare_cont_Eq in H. rewrite pow2_52.
    destruct (m ?= 4503599627370496)%positive eqn:Hm; cbn [CompOpp] in H.
    + apply Pos.compare_eq in Hm. rewrite Hm. apply Z.le_refl.
    + apply Pos.compare_lt_iff, Pos2Z.pos_lt_pos in Hm. apply Z.lt_le_incl, Hm.
    + discriminate H.
  - left. exact Hc.
  - discriminate H.
Qed.

Lemma below_minus_half m e :
  SFleb SF_minus_half (S754_finite true m e) = false ->
  -53 < e \/ (e = -53 /\ 2 ^ 52 < Z.pos m).
Proof.
  unfold SFleb, SF_minus_half, SFcompare. intros H.
  destruct (-53 ?= e) eqn:Hc.
  - apply Z.compare_eq in Hc. right. split; [symmetry; exact Hc|].
    rewrite compare_cont_Eq in H. rewrite pow2_52.
    destruct (4503599627370496 ?= m)%positive eqn:Hm; cbn [CompOpp] in H.
    + discriminate H.
    + apply Pos.compare_lt_iff, Pos2Z.pos_lt_pos in Hm. exact Hm.
    + discriminate H.
  - left. exact Hc.
  - discriminate H.
Qed.

(** For -1 <= x < -0.5 the sum x + 1.0 is exact: zero, or a positive
    number below 0.5. *)
Lemma SFadd_one_exact m e :
  valid_binary (S754_finite true m e) = true ->
  SFltb (S754_finite true m e) SF_minus_one = false ->
  SFleb SF_minus_half (S754_finite true m e) = false ->
  SF64add (S754_finite true m e) SF_one = S754_zero false \/
  exists m' e', SF64add (S754_finite true m e) SF_one = S754_finite false m' e' /\
                e' <= -54.
Proof.
  intros Hv H1 H2.
  destruct (valid_finite_bounds _ _ _ Hv) as (He & Hsz & Hnorm).
  change emin with (-1074) in He, Hnorm.
  change prec with 53 in Hsz, Hnorm.
  pose proof (size_bounds m) as [Hlo Hhi].
  apply not_below_minus_one in H1. apply below_minus_half in H2.
  assert (Hcase : (e = -53 /\ 2 ^ 52 < Z.pos m) \/ (e = -52 /\ Z.pos m <= 2 ^ 52)).
  { clear - H1 H2. destruct H1 as [H1|H1], H2 as [H2|H2]; try (exfalso; lia); auto. }
  clear H1 H2.
  assert (Hsize : Z.pos (Pos.size m) = 53) by (apply Hnorm; clear - Hcase; lia).
  rewrite Hsize in Hlo, Hhi. replace (53 - 1) with 52 in Hlo by reflexivity.
  destruct Hcase as [[-> Hm]|[-> Hm]].
  - right. unfold SF64add, SFadd, SF_one.
    replace (Z.min (-53) (-52)) with (-53) by reflexivity.
    destruct (shl_align_spec m (-53) (-53)) as [-> _].
    destruct (shl_align_spec 4503599627370496 (-52) (-53)) as [-> _].
    cbn [cond_Zopp].
    replace (Z.max 0 (-53 - -53)) with 0 by reflexivity.
    replace (Z.max 0 (-52 - -53)) with 1 by reflexivity.
    rewrite Z.pow_0_r, Z.mul_1_r, <- pow2_52, <- Z.pow_add_r by (clear; lia).
    replace (52 + 1) with 53 by reflexivity.
    assert (Hk : 0 < - Z.pos m + 2 ^ 53 < 2 ^ 52).
    { replace (2 ^ 53) with (2 * 2 ^ 52) in * by reflexivity.
      clear - Hm Hhi. lia. }
    destruct (- Z.pos m + 2 ^ 53) as [|k|k];
      [clear - Hk; lia| |clear - Hk; exfalso; lia].
    clear Hv Hsz Hnorm Hlo Hhi Hm Hsize He m.
    cbn [binary_normalize]. unfold binary_round. rewrite digits2_size.
    pose proof (size_bounds k) as [Hlo Hhi].
    pose proof (Pos2Z.is_pos (Pos.size k)) as Hd.
    set (d := Z.pos (Pos.size k)) in *.
    assert (Hd52 : d <= 52).
    { destruct (Z_le_gt_dec d 52) as [|Hgt]; [assumption|exfalso].
      assert (2 ^ 52 <= 2 ^ (d - 1)) by (apply Z.pow_le_mono_r; clear - Hgt; lia).
      clear - Hk Hlo H. lia. }
    assert (Hf : fexp prec emax (d + -53) = d - 106).
    { unfold fexp. change emin with (-1074). change prec with 53.
      clear - Hd Hd52. lia. }
    rewrite Hf.
    destruct (shl_align_spec k (-53) (d - 106)) as [Hz1 Hz2].
    destruct (shl_align k (-53) (d - 106)) as [mz ez]; cbn [fst snd] in Hz1, Hz2.
    replace (Z.min (-53) (d - 106)) with (d - 106) in Hz2 by (clear - Hd52; lia).
    replace (Z.max 0 (-53 - (d - 106))) with (53 - d) in Hz1 by (clear - Hd52; lia).
    subst ez.
    assert (Hmz : Z.pos (Pos.size mz) = 53).
    { apply size_unique. rewrite Hz1. replace (53 - 1) with 52 by reflexivity.
      assert (Hp : 0 < 2 ^ (53 - d)) by (apply Z.pow_pos_nonneg; clear - Hd52; lia).
      assert (E1 : 2 ^ 52 = 2 ^ (d - 1) * 2 ^ (53 - d)).
      { rewrite <- Z.pow_add_r by (clear - Hd Hd52; lia). f_equal. clear; lia. }
      assert (E2 : 2 ^ 53 = 2 ^ d * 2 ^ (53 - d)).
      { rewrite <- Z.pow_add_r by (clear - Hd Hd52; lia). f_equal. clear; lia. }
      rewrite E1, E2. split.
      - apply Z.mul_le_mono_nonneg_r; [apply Z.lt_le_incl, Hp|exact Hlo].
      - apply Z.mul_lt_mono_pos_r; [exact Hp|exact Hhi]. }
    rewrite binary_round_aux_exact.
    + exists mz, (d - 106). split; [reflexivity|]. clear - Hd52. lia.
    + rewrite Hmz. unfold shift_of, fexp. change emin with (-1074). change prec with 53.
      clear - Hd Hd52. lia.
    + change emax with 1024. change prec with 53. clear - Hd52. lia.
  - left.
    assert (Hm' : Z.pos m = 4503599627370496).
    { rewrite <- pow2_52. clear - Hm Hlo. lia. }
    injection Hm' as ->. vm_compute. reflexivity.
Qed.

(** x >= -1 and negative: x + 1.0 is not negative. *)
Lemma SFadd_one_nonnegative m e :
  valid_binary (S754_finite true m e) = true ->
  SFltb (S754_finite true m e) SF_minus_one = false ->
  SFltb (SF64add (S754_finite true m e) SF_one) (S754_zero false) = false /\
  SFleb (S754_zero false) (SF64add (S754_finite true m e) SF_one) = true /\
  SFleb (SF64add (S754_finite true m e) SF_one) SF_one = true.
Proof.
  intros Hv H1.
  destruct (SFleb SF_minus_half (S754_finite true m e)) eqn:H2.
  - destruct (SFadd_one_unit m e Hv H2) as [[m' ->]| ->]; repeat split.
  - destruct (SFadd_one_exact m e Hv H1 H2) as [->|(m' & e' & -> & He')];
      [repeat split|].
    split; [reflexivity|]. split; [reflexivity|].
    unfold SFleb, SF_one, SFcompare.
    replace (e' ?= -52) with Lt; [reflexivity|].
    symmetry. change (e' < -52). clear - He'. lia.
Qed.


End Binary64_exact.

Lemma leb_minus_one_not_ltb (f : spec_float) :
  SFleb SF_minus_one f = true -> SFltb f SF_minus_one = false.
Proof.
  unfold SFleb, SFltb. rewrite (SFcompare_antisym SF_minus_one f).
  destruct (SFcompare SF_minus_one f) as [[| |]|]; intros H;
    (discriminate H || reflexivity).
Qed.

(** Not being NaN, on the IEEE-754 view. *)
Lemma is_nan_false (x : float) :
  PrimFloat.is_nan x = false -> Prim2SF x <> S754_nan.
Proof.
  unfold PrimFloat.is_nan. rewrite FloatAxioms.eqb_spec. intros H Hn.
  rewrite Hn in H. discriminate H.
Qed.

Lemma SFcompare_defined (f g : spec_float) :
  f <> S754_nan -> g <> S754_nan -> exists c, SFcompare f g = Some c.
Proof.
  intros Hf Hg. destruct f as [s|s| |s m e], g as [s'|s'| |s' m' e'];
    try contradiction; cbn; eauto.
Qed.

(** For numbers, [not (x < y)] is [y <= x]. *)
Lemma not_ltb_leb (x y : float) :
  PrimFloat.is_nan x = false -> PrimFloat.is_nan y = false ->
  PrimFloat.ltb x y = negb (PrimFloat.leb y x).
Proof.
  intros Hx Hy. apply is_nan_false in Hx, Hy.
  rewrite FloatAxioms.ltb_spec, FloatAxioms.leb_spec.
  unfold SFltb, SFleb. rewrite (SFcompare_antisym (Prim2SF x) (Prim2SF y)).
  destruct (SFcompare_defined _ _ Hx Hy) as [c ->]. destruct c; reflexivity.
Qed.

(** x >= -1 and negative: x + 1.0 lies in [0, 1]. *)
Lemma add_one_unit_wide (x : float) :
  PrimFloat.leb (-1) x = true -> PrimFloat.ltb x 0 = true ->
  PrimFloat.ltb (x + 1) 0 = false /\
  PrimFloat.leb 0 (x + 1) = true /\ PrimFloat.leb (x + 1) 1 = true.
Proof.
  rewrite !FloatAxioms.ltb_spec, !FloatAxioms.leb_spec, FloatAxioms.add_spec,
    Prim2SF_one, Prim2SF_zero, Prim2SF_minus_one.
  pose proof (Prim2SF_valid x) as Hv.
  destruct (Prim2SF x) as [[|]|[|]| |[|] m e]; intros H1 H0;
    try discriminate H1; try discriminate H0.
  apply SFadd_one_nonnegative; [exact Hv|].
  now apply leb_minus_one_not_ltb.
Qed.

Lemma not_below_minus_one_add (x : float) :
  PrimFloat.ltb x (-1) = false -> PrimFloat.ltb x 0 = true ->
  PrimFloat.ltb (x + 1) 0 = false.
Proof.
  rewrite !FloatAxioms.ltb_spec, FloatAxioms.add_spec,
    Prim2SF_one, Prim2SF_zero, Prim2SF_minus_one.
  pose proof (Prim2SF_valid x) as Hv.
  destruct (Prim2SF x) as [[|]|[|]| |[|] m e]; intros H1 H0;
    try discriminate H1; try discriminate H0.
  now apply SFadd_one_nonnegative.
Qed.




(** ** The phase wrap beyond the expected range *)

Lemma wrap1_unit_wide (x : float) :
  PrimFloat.leb (-1) x && PrimFloat.ltb x 1 = true -> in_unit_closed (wrap1 x) = true.
Proof.
  intros H. apply andb_prop in H as [Hlo Hhi]. unfold wrap1, in_unit_closed; cbn [dt_less dt_zero dt_add dt_one float64].
  destruct (PrimFloat.ltb x 0) eqn:Hneg.
  - destruct (add_one_unit_wide x Hlo Hneg) as (_ & -> & ->). reflexivity.
  - revert Hneg Hhi. rewrite !FloatAxioms.ltb_spec, !FloatAxioms.leb_spec,
      Prim2SF_one, Prim2SF_zero.
    destruct (Prim2SF x) as [[|]|[|]| |[|] m e]; intros H0 H1;
      try discriminate H0; try discriminate H1; try reflexivity.
    unfold SFltb in H1. unfold SFleb.
    destruct (SFcompare (S754_finite false m e) SF_one) as [[| |]|];
      (discriminate H1 || reflexivity).
Qed.

(** X1: every phase of [-1, 1) is wrapped into the closed interval [0, 1]. *)
Theorem shift_phases_unit_wide (phases : list float) :
  Forall (fun x => PrimFloat.leb (-1) x && PrimFloat.ltb x 1 = true) phases ->
  Forall (fun y => in_unit_closed y = true) (shift_phases phases).
Proof.
  intros H. rewrite shift_phases_map. apply Forall_fmap.
  eapply Forall_impl; [exact H|]. intros x Hx. exact (wrap1_unit_wide x Hx).
Qed.

Lemma shift_phases_unit_wide_witness :
  Forall (fun y => in_unit_closed y = true)
         (shift_phases [(-1)%float; (-0.75)%float; 0%float; 0.9%float]).
Proof.
  apply shift_phases_unit_wide. repeat constructor.
Defined.

Lemma wrap1_idempotent (x : float) :
  PrimFloat.ltb x (-1) = false -> wrap1 (wrap1 x) = wrap1 x.
Proof.
  intros H. unfold wrap1 at 2 3; cbn [dt_less dt_zero dt_add dt_one float64].
  destruct (PrimFloat.ltb x 0) eqn:Hneg; unfold wrap1; cbn [dt_less dt_zero dt_add dt_one float64].
  - now rewrite (not_below_minus_one_add x H Hneg).
  - now rewrite Hneg.
Qed.

(** X2: when no phase is below -1.0 (NaN included), wrapping twice is the
    same as wrapping once. *)
Theorem shift_phases_idempotent (phases : list float) :
  Forall (fun x => PrimFloat.ltb x (-1) = false) phases ->
  shift_phases (shift_phases phases) = shift_phases phases.
Proof.
  intros H. rewrite !shift_phases_map, <- list_fmap_compose.
  apply Forall_fmap_ext_1. eapply Forall_impl; [exact H|].
  intros x Hx. exact (wrap1_idempotent x Hx).
Qed.

Lemma shift_phases_idempotent_witness :
  shift_phases (shift_phases [(-1)%float; (-0.3)%float; nan; 0.5%float])
  = shift_phases [(-1)%float; (-0.3)%float; nan; 0.5%float].
Proof.
  apply shift_phases_idempotent. repeat constructor.
Defined.





(** ** check_time: what a silent return means *)

Lemma set_log_neq (s : state) (msg : string) : set_log (log s ++ [msg]) s <> s.
Proof.
  intros H. apply (f_equal log) in H. cbn in H.
  apply (f_equal length) in H. rewrite length_app in H. cbn in H. lia.
Qed.

(** X4: when [Time(...)] accepts the window and the four times are
    numbers, [check_time] leaves the log as it is exactly when the window,
    as [Time(...)] gives it back, contains the observation:
    model_time[0] <= tstart and tstop <= model_time[1]. *)
Theorem check_time_silent_iff_contained
    (observation : Observation) (timing_model : TimingModel) (s : state)
    (model_time : float * float) :
  Time_mjd (START (model s)) (FINISH (model s)) = Some model_time ->
  PrimFloat.is_nan (fst model_time) = false ->
  PrimFloat.is_nan (snd model_time) = false ->
  PrimFloat.is_nan (tstart_tt_mjd observation) = false ->
  PrimFloat.is_nan (tstop_tt_mjd observation) = false ->
  check_time observation timing_model s = Return tt s <->
  PrimFloat.leb (fst model_time) (tstart_tt_mjd observation) = true /\
  PrimFloat.leb (tstop_tt_mjd observation) (snd model_time) = true.
Proof.
  intros HT N1 N2 N3 N4. rewrite check_time_run, HT. unfold out_of_window.
  rewrite (not_ltb_leb _ _ N3 N1), (not_ltb_leb _ _ N2 N4).
  destruct (PrimFloat.leb (fst model_time) (tstart_tt_mjd observation)),
           (PrimFloat.leb (tstop_tt_mjd observation) (snd model_time)); cbn.
  - split; [auto|reflexivity].
  - split; [intros H; injection H as H; now apply set_log_neq in H|intros [_ H]; discriminate H].
  - split; [intros H; injection H as H; now apply set_log_neq in H|intros [H _]; discriminate H].
  - split; [intros H; injection H as H; now apply set_log_neq in H|intros [H _]; discriminate H].
Qed.

Lemma check_time_silent_iff_contained_witness :
  let s := state_with_model (crab_model 54686.15 56583.16) in
  check_time run_5029747 (crab_model 0 0) s = Return tt s <->
  PrimFloat.leb (Time_mjd_value 54686.15) 56569.18 = true /\
  PrimFloat.leb 56569.19 (Time_mjd_value 56583.16) = true.
Proof.
  intros s.
  apply (check_time_silent_iff_contained run_5029747 (crab_model 0 0) s
           (Time_mjd_value 54686.15, Time_mjd_value 56583.16));
    vm_compute; reflexivity.
Defined.

(** ** Strings *)

Lemma string_app_cons (c : ascii) (s1 s2 : string) :
  String c s1 +:+ s2 = String c (s1 +:+ s2).
Proof. reflexivity. Qed.

Lemma string_app_nil (s : string) : EmptyString +:+ s = s.
Proof. reflexivity. Qed.

Lemma string_app_assoc (s1 s2 s3 : string) :
  (s1 +:+ s2) +:+ s3 = s1 +:+ (s2 +:+ s3).
Proof.
  induction s1 as [|c s1 IH]; [reflexivity|].
  rewrite !string_app_cons. now rewrite IH.
Qed.

Lemma string_app_length (s1 s2 : string) :
  String.length (s1 +:+ s2) = (String.length s1 + String.length s2)%nat.
Proof.
  induction s1 as [|c s1 IH]; [reflexivity|].
  rewrite string_app_cons. cbn. now rewrite IH.
Qed.

Lemma string_app_inv_tail (s1 s2 t : string) :
  s1 +:+ t = s2 +:+ t -> s1 = s2.
Proof.
  revert s2. induction s1 as [|c s1 IH]; intros [|c' s2] H;
    rewrite ?string_app_cons, ?string_app_nil in H.
  - reflexivity.
  - apply (f_equal String.length) in H. cbn in H. rewrite string_app_length in H. lia.
  - apply (f_equal String.length) in H. cbn in H. rewrite string_app_length in H. lia.
  - injection H as -> H. f_equal. now apply IH.
Qed.

(** X5: the warning names the observation: two observations with the same
    warning text have the same identifier. *)
Theorem warning_message_identifies (o1 o2 : Observation) :
  warning_message o1 = warning_message o2 -> obs_id o1 = obs_id o2.
Proof.
  unfold warning_message. intros H.
  apply String.app_inj in H. apply string_app_inv_tail in H.
  exact (pretty_Z_inj _ _ H).
Qed.

Lemma warning_message_identifies_witness :
  obs_id run_5029747 = obs_id (Observation_copy run_5029747 (mkEventList 7)).
Proof.
  apply warning_message_identifies. reflexivity.
Defined.


(** ** The name of the event file *)

Lemma digit_of_pretty_N_char (d : N) : (d < 10)%N -> digit_of (pretty_N_char d) = d.
Proof.
  intros H. destruct d as [|p]; [reflexivity|].
  do 4 (destruct p as [p|p|]; try reflexivity; try (exfalso; lia)).
Qed.

Lemma parse_N_pretty_N_go (x : N) :
  forall s : string, exists k : N, forall acc : N,
    parse_N acc (pretty_N_go x s) = parse_N (acc * k + x)%N s.
Proof.
  induction (N.lt_wf_0 x) as [x _ IH]. intros s.
  destruct (N.eq_dec x 0%N) as [->|Hx].
  - exists 1%N. intros acc. rewrite pretty_N_go_0. f_equal. lia.
  - rewrite pretty_N_go_step by lia.
    destruct (IH (x `div` 10)%N ltac:(apply N.div_lt; lia)
                 (String (pretty_N_char (x `mod` 10)) s)) as [k Hk].
    exists (k * 10)%N. intros acc. rewrite Hk. cbn [parse_N].
    rewrite digit_of_pretty_N_char by (apply N.mod_lt; lia).
    f_equal. pose proof (N.div_mod x 10 ltac:(lia)). lia.
Qed.

Lemma parse_N_pretty (n : N) : parse_N 0 (pretty n) = n.
Proof.
  unfold pretty, pretty_N. destruct (decide (n = 0%N)) as [->|Hn]; [reflexivity|].
  destruct (parse_N_pretty_N_go n EmptyString) as [k Hk]. rewrite Hk. cbn. lia.
Qed.

Lemma parse_N_zeros (n : nat) (s : string) :
  parse_N 0 (zeros n +:+ s) = parse_N 0 s.
Proof.
  induction n as [|n IH]; [reflexivity|].
  cbn [zeros]. rewrite string_app_cons. cbn [parse_N]. exact IH.
Qed.

Lemma pretty_N_no_dash (n : N) (s : string) : pretty n <> String "-" s.
Proof.
  unfold pretty, pretty_N. destruct (decide (n = 0%N)); [discriminate|].
  apply (pretty_N_go_ne_dash n EmptyString s). discriminate.
Qed.

Lemma parse_Z_dash (s : string) :
  parse_Z (String "-" s) = Z.opp (Z.of_N (parse_N 0 s)).
Proof. reflexivity. Qed.

Lemma parse_Z_no_dash (c : ascii) (s : string) :
  c <> "-"%char -> parse_Z (String c s) = Z.of_N (parse_N 0 (String c s)).
Proof.
  intros Hc. unfold parse_Z. destruct (Ascii.eqb c "-") eqn:E; [|reflexivity].
  apply Ascii.eqb_eq in E. contradiction.
Qed.

(** The formatted identifier reads back as the identifier. *)
Lemma parse_Z_format_04d (z : Z) : parse_Z (format_04d z) = z.
Proof.
  unfold format_04d. cbv zeta. destruct (z <? 0)%Z eqn:Hz.
  - rewrite string_app_cons, string_app_nil, parse_Z_dash.
    rewrite parse_N_zeros, parse_N_pretty. apply Z.ltb_lt in Hz. lia.
  - rewrite string_app_nil. apply Z.ltb_ge in Hz.
    assert (Hp : parse_N 0 (zeros (4 - String.length EmptyString
                                  - String.length (pretty (Z.abs_N z)))
                            +:+ pretty (Z.abs_N z)) = Z.abs_N z)
      by (rewrite parse_N_zeros; apply parse_N_pretty).
    revert Hp.
    destruct (4 - String.length EmptyString - String.length (pretty (Z.abs_N z)))%nat
      as [|k]; cbn [zeros].
    + rewrite string_app_nil. intros Hp.
      destruct (pretty (Z.abs_N z)) as [|c s'] eqn:Hs.
      * cbn in Hp. cbn. lia.
      * rewrite parse_Z_no_dash, Hp; [lia|].
        intros ->. exact (pretty_N_no_dash _ _ Hs).
    + rewrite string_app_cons. intros Hp.
      rewrite parse_Z_no_dash, Hp; [lia|discriminate].
Qed.

Lemma format_04d_inj (z1 z2 : Z) : format_04d z1 = format_04d z2 -> z1 = z2.
Proof.
  intros H. rewrite <- (parse_Z_format_04d z1), <- (parse_Z_format_04d z2).
  now rewrite H.
Qed.

(** X6: two observations with different identifiers get different event
    file names, and so different output paths under one data store. *)
Theorem events_filename_injective (datastore_dir : string) (o1 o2 : Observation) :
  obs_id o1 <> obs_id o2 ->
  events_filename o1 <> events_filename o2 /\
  file_path datastore_dir o1 <> file_path datastore_dir o2.
Proof.
  intros Hne.
  assert (Hf : events_filename o1 <> events_filename o2).
  { unfold events_filename. intros H.
    apply String.app_inj in H. apply string_app_inv_tail in H.
    apply Hne. exact (format_04d_inj _ _ H). }
  split; [exact Hf|].
  unfold file_path. intros H. apply String.app_inj in H. contradiction.
Qed.

Lemma events_filename_injective_witness :
  events_filename run_5029747
    <> events_filename (mkObservation 5029748 0 0 (InMemory (mkEventList 1))) /\
  file_path "data/" run_5029747
    <> file_path "data/" (mkObservation 5029748 0 0 (InMemory (mkEventList 1))).
Proof.
  apply (events_filename_injective "data/" run_5029747
           (mkObservation 5029748 0 0 (InMemory (mkEventList 1)))).
  cbn. lia.
Defined.


(** ** The patch loop on any index *)

Lemma Table_eta (t : Table) : mkTable (colnames t) (rows t) (meta t) = t.
Proof. destruct t; reflexivity. Qed.

Lemma state_eta (s : state) : mkState (heap s) (files s) (log s) (model s) = s.
Proof. destruct s; reflexivity. Qed.

(** X7: on an index whose rows have the four columns, the loop returns and
    treats every row on its own: a row with HDU_NAME = EVENTS and OBS_ID =
    target gets the new FILE_DIR and FILE_NAME, each cut to the width of
    its column, and keeps its other columns, any other row is left as it
    is; if no row is a target the table is unchanged.  There may be no
    target row or several. *)
Theorem patch_loop_rowwise
    (l : loc) (t : Table) (s : state) (target : Z)
    (output_directory filename : string) :
  heap s !! l = Some t ->
  Forall index_row_ok (rows t) ->
  exists t' : Table,
    Table_for_entries l (patch_entry target output_directory filename) s
      = Return tt (set_heap (<[l := t']> (heap s)) s) /\
    colnames t' = colnames t /\ meta t' = meta t /\
    length (rows t') = length (rows t) /\
    (forall i entry, rows t !! i = Some entry ->
       exists entry', rows t' !! i = Some entry' /\
         (is_target target entry = false -> entry' = entry) /\
         (is_target target entry = true ->
            entry' !! "FILE_DIR"
            = Some (cell_assign (entry !! "FILE_DIR") ("./" +:+ output_directory)) /\
            entry' !! "FILE_NAME"
            = Some (cell_assign (entry !! "FILE_NAME") filename) /\
            forall col, col <> "FILE_DIR" -> col <> "FILE_NAME" ->
                        entry' !! col = entry !! col)) /\
    (Forall (fun entry => is_target target entry = false) (rows t) -> t' = t).
Proof.
  intros Hl Hok.
  eexists. split; [exact (Table_for_entries_ok l t s target _ _ Hl Hok)|].
  cbn. repeat split.
  - apply length_fmap.
  - intros i entry Hi. exists (patch_row target output_directory filename entry).
    rewrite list_lookup_fmap, Hi. split; [reflexivity|]. unfold patch_row.
    split; intros Ht; rewrite Ht; [reflexivity|].
    split; [apply patched_FILE_DIR|]. split; [apply patched_FILE_NAME|].
    intros col. apply patched_other_column.
  - intros Hnone. rewrite <- (Table_eta t) at 4. f_equal.
    rewrite <- (list_fmap_id (rows t)) at 2.
    apply Forall_fmap_ext_1. eapply Forall_impl; [exact Hnone|].
    intros entry Ht. unfold patch_row. now rewrite Ht.
Qed.

Lemma patch_loop_rowwise_witness :
  exists t' : Table,
    Table_for_entries 2
      (patch_entry 77 output_directory "dl3_pulsar_0077.fits.gz") notebook_state
      = Return tt (set_heap (<[2%positive := t']> (heap notebook_state)) notebook_state) /\
    t' = index_table.
Proof.
  assert (Hl : heap notebook_state !! 2%positive = Some index_table)
    by (vm_compute; reflexivity).
  assert (Hok : Forall index_row_ok (rows index_table)).
  { repeat constructor; eexists; vm_compute; reflexivity. }
  destruct (patch_loop_rowwise 2 index_table notebook_state 77 output_directory
              "dl3_pulsar_0077.fits.gz" Hl Hok)
    as (t' & Hrun & _ & _ & _ & _ & Hsame).
  exists t'. split; [exact Hrun|]. apply Hsame.
  repeat constructor.
Defined.

Lemma patch_row_ok (target : Z) (output_directory filename : string) (entry : Row) :
  index_row_ok entry -> index_row_ok (patch_row target output_directory filename entry).
Proof.
  unfold patch_row. destruct (is_target target entry); [|auto].
  intros (H1 & H2 & _ & _). unfold index_row_ok.
  rewrite !patched_other_column by discriminate.
  rewrite patched_FILE_DIR, patched_FILE_NAME. eauto.
Qed.

Lemma patched_twice (output_directory filename : string) (entry : Row) :
  patched output_directory filename (patched output_directory filename entry)
  = patched output_directory filename entry.
Proof.
  apply map_eq. intros col.
  destruct (decide (col = "FILE_NAME")) as [->|H1];
    [now rewrite !patched_FILE_NAME, cell_assign_twice|].
  destruct (decide (col = "FILE_DIR")) as [->|H2];
    [now rewrite !patched_FILE_DIR, cell_assign_twice|].
  now rewrite !patched_other_column.
Qed.

Lemma patch_row_twice (target : Z) (output_directory filename : string)
    (entry : Row) :
  patch_row target output_directory filename
    (patch_row target output_directory filename entry)
  = patch_row target output_directory filename entry.
Proof.
  unfold patch_row. destruct (is_target target entry) eqn:Ht.
  - now rewrite is_target_patched, Ht, patched_twice.
  - now rewrite Ht.
Qed.

(** X8: running the loop a second time with the same target, directory and
    file name changes nothing: the state after two runs is the state after
    one. *)
Theorem patch_loop_idempotent
    (l : loc) (t : Table) (s : state) (target : Z)
    (output_directory filename : string) :
  heap s !! l = Some t ->
  Forall index_row_ok (rows t) ->
  (Table_for_entries l (patch_entry target output_directory filename) ≫= fun _ =>
     Table_for_entries l (patch_entry target output_directory filename)) s
  = Table_for_entries l (patch_entry target output_directory filename) s.
Proof.
  intros Hl Hok. unfold mbind, M_bind.
  rewrite (Table_for_entries_ok l t s target _ _ Hl Hok).
  erewrite Table_for_entries_ok; [|cbn; apply lookup_insert_eq|].
  - assert (Hrows : patch_row target output_directory filename <$>
                      (patch_row target output_directory filename <$> rows t)
                    = patch_row target output_directory filename <$> rows t).
    { rewrite <- list_fmap_compose. apply list_fmap_ext.
      intros i entry _. apply patch_row_twice. }
    cbn. unfold set_heap; cbn. rewrite insert_insert_eq, Hrows. reflexivity.
  - cbn. apply Forall_fmap. eapply Forall_impl; [exact Hok|].
    intros entry. apply patch_row_ok.
Qed.

Lemma patch_loop_idempotent_witness :
  (Table_for_entries 2 (patch_entry 5029747 output_directory "f.fits.gz") ≫= fun _ =>
     Table_for_entries 2 (patch_entry 5029747 output_directory "f.fits.gz"))
    notebook_state
  = Table_for_entries 2 (patch_entry 5029747 output_directory "f.fits.gz")
      notebook_state.
Proof.
  assert (Hl : heap notebook_state !! 2%positive = Some index_table)
    by (vm_compute; reflexivity).
  assert (Hok : Forall index_row_ok (rows index_table)).
  { repeat constructor; eexists; vm_compute; reflexivity. }
  exact (patch_loop_idempotent 2 index_table notebook_state 5029747
           output_directory "f.fits.gz" Hl Hok).
Defined.

(** ** The patch loop on an index that lacks a column *)

Lemma write_back_same (l : loc) (t : Table) (s : state) :
  heap s !! l = Some t -> set_heap (<[l := t]> (heap s)) s = s.
Proof.
  intros Hl. unfold set_heap. rewrite (insert_id _ _ _ Hl). apply state_eta.
Qed.

(** X9: a table without rows passes through the loop untouched, whatever
    its columns.  A table whose first row has no HDU_NAME column makes the
    loop raise KeyError: 'HDU_NAME' at once, with the state as it was. *)
Theorem patch_loop_missing_HDU_NAME
    (l : loc) (t : Table) (s : state) (target : Z)
    (output_directory filename : string) :
  heap s !! l = Some t ->
  (rows t = [] ->
   Table_for_entries l (patch_entry target output_directory filename) s
   = Return tt s) /\
  (forall entry rest, rows t = entry :: rest -> entry !! "HDU_NAME" = None ->
   Table_for_entries l (patch_entry target output_directory filename) s
   = Raise (KeyError "HDU_NAME") s).
Proof.
  intros Hl. split.
  - intros Hrows. unfold Table_for_entries. run_M. rewrite Hl, Hrows. cbn.
    rewrite <- Hrows, Table_eta, (write_back_same l t s Hl). reflexivity.
  - intros entry rest Hrows Hmiss. unfold Table_for_entries. run_M.
    rewrite Hl, Hrows. cbn [for_entries]. unfold patch_entry. rewrite Hmiss.
    cbn. rewrite <- Hrows, Table_eta, (write_back_same l t s Hl). reflexivity.
Qed.

Lemma patch_loop_missing_HDU_NAME_witness :
  let t := mkTable ["OBS_ID"] [{[ "OBS_ID" := VInt 5029747 ]}] ∅ in
  let s := mkState {[ 3%positive := t ]} ∅ [] (crab_model 0 0) in
  Table_for_entries 3 (patch_entry 5029747 output_directory "f.fits.gz") s
  = Raise (KeyError "HDU_NAME") s.
Proof.
  intros t s.
  assert (Hl : heap s !! 3%positive = Some t) by (vm_compute; reflexivity).
  destruct (patch_loop_missing_HDU_NAME 3 t s 5029747 output_directory "f.fits.gz" Hl)
    as [_ H].
  apply (H {[ "OBS_ID" := VInt 5029747 ]} []); [reflexivity|].
  vm_compute. reflexivity.
Defined.

Lemma patch_entry_passed_over (target : Z) (output_directory filename : string)
    (entry : Row) :
  passed_over target entry ->
  patch_entry target output_directory filename entry = (entry, None).
Proof.
  intros ([hn Hhn] & [oid Hoid] & Ht). unfold patch_entry.
  unfold is_target in Ht. rewrite Hhn, Hoid in Ht |- *.
  destruct (py_eq hn (VStr "EVENTS")); [|reflexivity].
  destruct (py_eq oid (VInt target)); [discriminate Ht|reflexivity].
Qed.

Lemma for_entries_passed_over (target : Z) (output_directory filename : string)
    (before rest : list Row) :
  Forall (passed_over target) before ->
  for_entries (patch_entry target output_directory filename) (before ++ rest)
  = (before ++ fst (for_entries (patch_entry target output_directory filename) rest),
     snd (for_entries (patch_entry target output_directory filename) rest)).
Proof.
  induction 1 as [|entry before Hentry _ IH]; cbn [app for_entries].
  - now destruct (for_entries _ rest).
  - rewrite (patch_entry_passed_over _ _ _ _ Hentry), IH. reflexivity.
Qed.

(** X10: on an index that has FILE_DIR but no FILE_NAME column, the loop
    raises KeyError: 'FILE_NAME' at the first target row, after it has
    overwritten FILE_DIR of that row with the new directory, cut to the
    width of the column: the table is left half patched.  The rows before
    and after that row are as they were. *)
Theorem patch_loop_missing_FILE_NAME
    (l : loc) (t : Table) (s : state) (target : Z)
    (output_directory filename : string) (before rest : list Row) (entry : Row) :
  heap s !! l = Some t ->
  rows t = before ++ entry :: rest ->
  Forall (passed_over target) before ->
  is_target target entry = true ->
  is_Some (entry !! "FILE_DIR") ->
  entry !! "FILE_NAME" = None ->
  Table_for_entries l (patch_entry target output_directory filename) s
  = Raise (KeyError "FILE_NAME")
      (set_heap
         (<[l := mkTable (colnames t)
                   (before
                    ++ <["FILE_DIR" := cell_assign (entry !! "FILE_DIR")
                                         ("./" +:+ output_directory)]> entry
                    :: rest)
                   (meta t)]> (heap s)) s).
Proof.
  intros Hl Hrows Hbefore Ht [fd Hfd] Hfn. fold (assigned "FILE_DIR" ("./" +:+ output_directory) entry).
  unfold Table_for_entries. run_M. rewrite Hl, Hrows.
  rewrite (for_entries_passed_over _ _ _ _ _ Hbefore). cbn [for_entries].
  assert (He : patch_entry target output_directory filename entry
               = (assigned "FILE_DIR" ("./" +:+ output_directory) entry,
                  Some (KeyError "FILE_NAME"))).
  { unfold patch_entry, entry_setitem. unfold is_target in Ht.
    destruct (entry !! "HDU_NAME") as [hn|]; [|discriminate Ht].
    destruct (entry !! "OBS_ID") as [oid|]; [|discriminate Ht].
    apply andb_prop in Ht as [-> ->]. rewrite Hfd.
    rewrite assigned_lookup_ne by discriminate. rewrite Hfn. reflexivity. }
  rewrite He. reflexivity.
Qed.

Lemma patch_loop_missing_FILE_NAME_witness :
  let gti := {[ "OBS_ID" := VInt 7; "HDU_NAME" := VFixed 6 "GTI";
                "FILE_DIR" := VFixed 4 "." ]} in
  let ev := {[ "OBS_ID" := VInt 7; "HDU_NAME" := VFixed 6 "EVENTS";
               "FILE_DIR" := VFixed 4 "." ]} in
  let t := mkTable ["OBS_ID"; "HDU_NAME"; "FILE_DIR"] [gti; ev] ∅ in
  let s := mkState {[ 3%positive := t ]} ∅ [] (crab_model 0 0) in
  Table_for_entries 3 (patch_entry 7 "out/" "f.fits.gz") s
  = Raise (KeyError "FILE_NAME")
      (set_heap
         (<[3%positive := mkTable (colnames t)
              ([gti] ++ <["FILE_DIR" := VFixed 4 "./ou"]> ev :: [])
              (meta t)]> (heap s)) s).
Proof.
  intros gti ev t s.
  apply (patch_loop_missing_FILE_NAME 3 t s 7 "out/" "f.fits.gz" [gti] [] ev).
  - vm_compute. reflexivity.
  - reflexivity.
  - repeat constructor; try (eexists; vm_compute; reflexivity).
  - vm_compute. reflexivity.
  - eexists. vm_compute. reflexivity.
  - vm_compute. reflexivity.
Defined.

(** ** Two observations, one data store *)

(** X11: the cells of section 4, run for one observation and then for
    another from the same data store, leave the files that the second run
    alone would have left: the index written by the first run is
    overwritten by an index patched for the second observation only, its
    new FILE_DIR and FILE_NAME cut to the width of their columns. *)
Theorem patch_index_second_run_overwrites
    (data_store : DataStore) (o1 o2 : Observation)
    (datastore_dir dir1 dir2 filename1 filename2 : string)
    (t : Table) (s : state) :
  heap s !! hdu_table data_store = Some t ->
  Forall index_row_ok (rows t) ->
  let both := (patch_index data_store o1 datastore_dir dir1 filename1 ≫= fun _ =>
                 patch_index data_store o2 datastore_dir dir2 filename2) s in
  raised both = None /\
  files (final_state both)
  = files (final_state (patch_index data_store o2 datastore_dir dir2 filename2 s)) /\
  files (final_state both) !! (datastore_dir +:+ hdu_index_filename)
  = Some (mkTable (colnames t) (patch_row (obs_id o2) dir2 filename2 <$> rows t)
            (meta t)).
Proof.
  intros Hl Hok both. subst both. unfold mbind, M_bind.
  rewrite (patch_index_run data_store o1 datastore_dir dir1 filename1 t s Hl Hok).
  cbv zeta.
  set (n1 := fresh (dom (heap s))).
  assert (Hn1 : n1 <> hdu_table data_store).
  { intros Heq. pose proof (fresh_loc_unused (heap s)) as Hf. fold n1 in Hf.
    rewrite Heq, Hl in Hf. discriminate Hf. }
  match goal with |- context [patch_index _ o2 _ _ _ ?s1] =>
    assert (Hl1 : heap s1 !! hdu_table data_store = Some t)
      by (cbn; now rewrite lookup_insert_ne by congruence);
    rewrite (patch_index_run data_store o2 datastore_dir dir2 filename2 t s1 Hl1 Hok)
  end.
  rewrite (patch_index_run data_store o2 datastore_dir dir2 filename2 t s Hl Hok).
  cbn. rewrite insert_insert_eq. split; [reflexivity|].
  split; [reflexivity|]. apply lookup_insert_eq.
Qed.

Lemma patch_index_second_run_overwrites_witness :
  let s := mkState {[ 2%positive := wide_index_table ]} ∅ [] (crab_model 0 0) in
  let both := (patch_index (mkDataStore 2) run_5029747 "data/" output_directory
                 "dl3_pulsar_5029747.fits.gz" ≫= fun _ =>
               patch_index (mkDataStore 2) (mkObservation 5029748 0 0 (InMemory (mkEventList 1)))
                 "data/" output_directory "dl3_pulsar_5029748.fits.gz") s in
  raised both = None /\
  files (final_state both) !! ("data/" +:+ hdu_index_filename)
  = Some (mkTable (colnames wide_index_table)
            [wide_index_row 5029747 "events" "run_05029747.fits" "EVENTS";
             wide_index_row 5029747 "gti" "run_05029747.fits" "GTI";
             <["FILE_NAME" := VFixed 100 "dl3_pulsar_5029748.fits.gz"]>
               (<["FILE_DIR" := VFixed 100 "./pulsar_events_file/"]>
                  (wide_index_row 5029748 "events" "run_05029748.fits" "EVENTS"));
             wide_index_row 5029748 "gti" "run_05029748.fits" "GTI"]
            (meta wide_index_table)).
Proof.
  intros s.
  assert (Hl : heap s !! hdu_table (mkDataStore 2) = Some wide_index_table)
    by (vm_compute; reflexivity).
  assert (Hok : Forall index_row_ok (rows wide_index_table)).
  { repeat constructor; eexists; vm_compute; reflexivity. }
  destruct (patch_index_second_run_overwrites (mkDataStore 2) run_5029747
              (mkObservation 5029748 0 0 (InMemory (mkEventList 1))) "data/"
              output_directory output_directory "dl3_pulsar_5029747.fits.gz"
              "dl3_pulsar_5029748.fits.gz" wide_index_table s Hl Hok)
    as (H1 & _ & H3).
  split; [exact H1|]. cbv zeta. rewrite H3. f_equal.
Defined.

(** ** The event table after the augmentation *)

Lemma with_phases_row (phases : list float) (phase_log : string) (t : Table)
    (i : nat) (r : Row) :
  length phases = length (rows t) -> rows t !! i = Some r ->
  exists p, phases !! i = Some p /\
    rows (with_phases phases phase_log t) !! i = Some (<["PHASE" := VFloat p]> r).
Proof.
  intros Hlen Hr.
  destruct (phases !! i) as [p|] eqn:Hp.
  - exists p. split; [reflexivity|]. cbn.
    apply lookup_zip_with_Some. exists r, (VFloat p).
    split; [reflexivity|]. split; [exact Hr|].
    rewrite list_lookup_fmap, Hp. reflexivity.
  - exfalso. apply lookup_ge_None in Hp. apply lookup_lt_Some in Hr. lia.
Qed.

(** X12: the augmentation keeps every event: the table that
    [observation.events.table] gave has, after the cells, as many rows as
    before, row i carries phase i in its PHASE cell, and every other cell
    of every row is what it was; the column names it had stay in front, in
    order.  The new observation holds that table. *)
Theorem add_phase_column_keeps_events
    (observation : Observation) (phases : list float) (phase_log : string)
    (t : Table) (s : state) :
  events_content observation s = Some t ->
  colnames t <> [] -> length phases = length (rows t) ->
  exists (new_obs : Observation) (s' : state) (t' : Table),
    add_phase_column observation phases phase_log s = Return new_obs s' /\
    events new_obs = InMemory (mkEventList (events_loc observation s)) /\
    heap (final_state (add_phase_column observation phases phase_log s))
      !! events_loc observation s = Some t' /\
    length (rows t') = length (rows t) /\
    colnames t `prefix_of` colnames t' /\
    forall i r, rows t !! i = Some r ->
      exists p r', phases !! i = Some p /\ rows t' !! i = Some r' /\
        r' !! "PHASE" = Some (VFloat p) /\
        forall col, col <> "PHASE" -> r' !! col = r !! col.
Proof.
  intros Hl Hc Hlen.
  rewrite (add_phase_column_run observation phases phase_log t s Hl Hc Hlen).
  eexists _, _. exists (with_phases phases phase_log t). cbn [final_state].
  split; [reflexivity|]. split; [reflexivity|].
  split; [cbn; apply lookup_insert_eq|]. split; [|split].
  - cbn. rewrite length_zip_with, length_fmap. lia.
  - cbn. destruct (decide ("PHASE" ∈ colnames t)); [reflexivity|].
    now apply prefix_app_r.
  - intros i r Hr.
    destruct (with_phases_row phases phase_log t i r Hlen Hr) as (p & Hp & Hrow).
    exists p, (<["PHASE" := VFloat p]> r).
    split; [exact Hp|]. split; [exact Hrow|]. split; [apply lookup_insert_eq|].
    intros col Hcol. now rewrite lookup_insert_ne by congruence.
Qed.

Lemma add_phase_column_keeps_events_witness :
  exists (t' : Table),
    heap (final_state (add_phase_column run_5029747_in_memory
                         [0.7%float; 0.1%float; 0.6%float] "log" notebook_state))
      !! 1%positive = Some t' /\
    length (rows t') = 3%nat.
Proof.
  assert (Hl : events_content run_5029747_in_memory notebook_state = Some events_table)
    by (vm_compute; reflexivity).
  assert (Hc : colnames events_table <> []) by discriminate.
  assert (Hlen : length [0.7%float; 0.1%float; 0.6%float] = length (rows events_table))
    by reflexivity.
  destruct (add_phase_column_keeps_events run_5029747_in_memory _ "log" events_table
              notebook_state Hl Hc Hlen) as (_ & _ & t' & _ & _ & H1 & H2 & _).
  exists t'. split; [exact H1|exact H2].
Defined.

Lemma zip_with_insert_twice (name : string) (rs : list Row) (vs : list value) :
  zip_with (fun r v => <[name := v]> r) (zip_with (fun r v => <[name := v]> r) rs vs) vs
  = zip_with (fun r v => <[name := v]> r) rs vs.
Proof.
  revert vs. induction rs as [|r rs IH]; intros [|v vs]; cbn; try reflexivity.
  rewrite insert_insert_eq. f_equal. apply IH.
Qed.

Lemma with_phases_twice (phases : list float) (phase_log : string) (t : Table) :
  with_phases phases phase_log (with_phases phases phase_log t)
  = with_phases phases phase_log t.
Proof.
  unfold with_phases. cbn [colnames rows meta].
  rewrite zip_with_insert_twice, insert_insert_eq. f_equal.
  destruct (decide ("PHASE" ∈ colnames t)) as [Hin|Hnin].
  - destruct (decide ("PHASE" ∈ colnames t)); [reflexivity|contradiction].
  - destruct (decide ("PHASE" ∈ colnames t ++ ["PHASE"])) as [|Hn]; [reflexivity|].
    exfalso. apply Hn. apply elem_of_app. right. now apply list_elem_of_singleton.
Qed.

(** X13: running the augmentation cells a second time with the same phases
    and the same log replaces the PHASE column and the PH_LOG entry by
    themselves: the outcome is that of a single run. *)
Theorem add_phase_column_idempotent
    (observation : Observation) (phases : list float) (phase_log : string)
    (t : Table) (s : state) :
  events_content observation s = Some t ->
  colnames t <> [] -> length phases = length (rows t) ->
  (add_phase_column observation phases phase_log ≫= fun new_obs =>
     add_phase_column new_obs phases phase_log) s
  = add_phase_column observation phases phase_log s.
Proof.
  intros Hl Hc Hlen. unfold mbind, M_bind.
  rewrite (add_phase_column_run observation phases phase_log t s Hl Hc Hlen).
  erewrite (add_phase_column_run _ phases phase_log (with_phases phases phase_log t)).
  - cbn. unfold set_heap; cbn.
    rewrite insert_insert_eq, with_phases_twice. reflexivity.
  - cbn. apply lookup_insert_eq.
  - cbn. destruct (decide ("PHASE" ∈ colnames t)); [exact Hc|].
    intros H. apply app_eq_nil in H as [_ H]. discriminate H.
  - cbn. rewrite length_zip_with, length_fmap. lia.
Qed.

Lemma add_phase_column_idempotent_witness :
  (add_phase_column run_5029747 [0.7%float; 0.1%float; 0.6%float] "log" ≫=
     fun new_obs => add_phase_column new_obs [0.7%float; 0.1%float; 0.6%float] "log")
    notebook_state
  = add_phase_column run_5029747 [0.7%float; 0.1%float; 0.6%float] "log"
      notebook_state.
Proof.
  assert (Hl : events_content run_5029747 notebook_state = Some events_table)
    by (vm_compute; reflexivity).
  assert (Hc : colnames events_table <> []) by discriminate.
  assert (Hlen : length [0.7%float; 0.1%float; 0.6%float] = length (rows events_table))
    by reflexivity.
  exact (add_phase_column_idempotent run_5029747 _ "log" events_table
           notebook_state Hl Hc Hlen).
Defined.

(** ** The two files of section 4 *)

(** X14: the event file and the patched index are different files: for
    every data-store directory and every observation, [file_path] differs
    from [datastore_dir + "hdu-index-pulsar.fits.gz"], so that writing the
    one never overwrites the other. *)
Theorem file_path_not_index (datastore_dir : string) (observation : Observation) :
  file_path datastore_dir observation <> datastore_dir +:+ hdu_index_filename.
Proof.
  unfold file_path, output_directory, hdu_index_filename.
  rewrite string_app_assoc. intros H. apply String.app_inj in H.
  discriminate H.
Qed.
